(** * LofiMaker: the DSP effects pipeline of [app/lofi_maker.py]

    A shallow embedding of the [LofiMaker] class: the reverb, surround and
    N-D pan transforms, peak normalisation and the [process] orchestrator.

    Numeric model.  Integer samples are [Z] (signed 16-bit, interleaved as
    pydub's [get_array_of_samples] returns them).  Floating-point values are
    modelled by real numbers: rounding of float32/float64 operations is not
    modelled, so an int16 sample the model stores after a division or a
    product can differ from the program's in its last unit.  Where the source divides (numpy's [/], pydub's dBFS
    computation) the result is a [float], a real extended by the IEEE special
    values, because numpy returns [nan]/[inf] on a zero divisor instead of
    raising.  Python's own [/] and [%] raise [ZeroDivisionError]. *)

From Stdlib Require Import String Bool ZArith Reals Lra Lia List.
Import ListNotations.

Open Scope Z_scope.
Open Scope R_scope.

(** ** Outcomes of a computation *)

(** The exceptions the source, numpy and the Python runtime can raise on the
    paths modelled here. *)
Inductive exn : Type :=
| ValueError (msg : string)      (* [raise ValueError(msg)] in the source *)
| BroadcastError                 (* numpy ValueError: could not broadcast input array *)
| ReshapeError                   (* numpy ValueError: cannot reshape array *)
| EmptyReduction                 (* numpy ValueError: zero-size array to reduction *)
| ZeroDivisionError              (* Python [/] or [%] with a zero right operand *)
| IndexError                     (* index out of bounds *)
| OverflowError                  (* Python int out of bounds for int16 *)
| LibraryError (msg : string).   (* raised inside pydub, e.g. audioop.error *)

(** [Undefined]: the source went on with a value the language does not
    determine (numpy's cast of a non-finite or out-of-range float to int16:
    "invalid value encountered in cast", platform dependent).  Nothing is
    raised; the model does not choose the value. *)
Inductive result (A : Type) : Type :=
| Ok (a : A)
| Raise (e : exn)
| Undefined.
Arguments Ok {A} a.
Arguments Raise {A} e.
Arguments Undefined {A}.

Definition rbind {A B} (r : result A) (k : A -> result B) : result B :=
  match r with
  | Ok a => k a
  | Raise e => Raise e
  | Undefined => Undefined
  end.

Declare Scope result_scope.
Delimit Scope result_scope with result.
Notation "x <- c ;; k" := (rbind c (fun x => k))
  (at level 61, c at next level, right associativity) : result_scope.

(** Sequential loop [for i in xs: acc = body(acc, i)] that stops at the
    first exception. *)
Fixpoint foldM {A I} (body : A -> I -> result A) (xs : list I) (acc : A)
  : result A :=
  match xs with
  | [] => Ok acc
  | i :: xs' => rbind (body acc i) (foldM body xs')
  end.

(** Elementwise traversal that stops at the first failure. *)
Fixpoint mapM {A B} (f : A -> result B) (xs : list A) : result (list B) :=
  match xs with
  | [] => Ok []
  | x :: xs' =>
      rbind (f x) (fun y => rbind (mapM f xs') (fun ys => Ok (y :: ys)))
  end.

(** ** Floating-point values *)

Module Float.

Inductive float : Type :=
| Fin (x : R)
| PInf
| NInf
| NaN.

Definition of_sign (x : R) : float :=
  if Rlt_dec 0 x then PInf else NInf.

(** IEEE division (signed zeros are not distinguished: every zero
    divisor met below is a peak [max |x|] or a ratio, that is [+0]). *)
Definition div (a b : float) : float :=
  match a, b with
  | NaN, _ | _, NaN => NaN
  | Fin x, Fin y =>
      if Req_dec_T y 0
      then (if Req_dec_T x 0 then NaN else of_sign x)
      else Fin (x / y)
  | Fin _, (PInf | NInf) => Fin 0
  | (PInf | NInf), (PInf | NInf) => NaN
  | PInf, Fin y => if Rlt_dec y 0 then NInf else PInf
  | NInf, Fin y => if Rlt_dec y 0 then PInf else NInf
  end.

Definition neg (a : float) : float :=
  match a with
  | Fin x => Fin (- x)
  | PInf => NInf
  | NInf => PInf
  | NaN => NaN
  end.

Definition mul (a b : float) : float :=
  match a, b with
  | NaN, _ | _, NaN => NaN
  | Fin x, Fin y => Fin (x * y)
  | Fin x, PInf | PInf, Fin x =>
      if Req_dec_T x 0 then NaN else of_sign x
  | Fin x, NInf | NInf, Fin x =>
      if Req_dec_T x 0 then NaN else neg (of_sign x)
  | PInf, PInf | NInf, NInf => PInf
  | PInf, NInf | NInf, PInf => NInf
  end.

Definition sub (a b : float) : float :=
  match a, b with
  | NaN, _ | _, NaN => NaN
  | Fin x, Fin y => Fin (x - y)
  | Fin _, PInf => NInf
  | Fin _, NInf => PInf
  | PInf, PInf | NInf, NInf => NaN
  | PInf, _ => PInf
  | NInf, _ => NInf
  end.


End Float.
Import Float.

(** ** Conversions between floats and integers *)

(** Python's [int(x)] on a float and numpy's in-range [astype] of a float
    to an integer type: truncation toward zero. *)
Definition Ztrunc (x : R) : Z :=
  if Rle_dec 0 x then Zfloor x else Zceil x.

Definition int16_min : Z := -32768.
Definition int16_max : Z := 32767.

Definition in_int16 (z : Z) : bool :=
  ((int16_min <=? z) && (z <=? int16_max))%Z.

(** [x.astype(np.int16)] for one element. *)
Definition astype_int16 (a : float) : result Z :=
  match a with
  | Fin x => if in_int16 (Ztrunc x) then Ok (Ztrunc x) else Undefined
  | _ => Undefined
  end.

(** Storing a Python int into an element of an int16 array. *)
Definition store_int16 (z : Z) : result Z :=
  if in_int16 z then Ok z else Raise OverflowError.

(** Python's [a / b] and [a % b] on floats (or ints for [/]). *)
Definition py_div (a b : R) : result R :=
  if Req_dec_T b 0 then Raise ZeroDivisionError else Ok (a / b).

Definition py_mod (a b : R) : result R :=
  if Req_dec_T b 0 then Raise ZeroDivisionError
  else Ok (a - b * IZR (Zfloor (a / b))).

(** [range(lo, hi)] *)
Definition range (lo hi : Z) : list Z :=
  map (fun k => (lo + Z.of_nat k)%Z) (seq 0 (Z.to_nat (hi - lo))).

(** ** The numpy operations the source uses *)

Module Np.

Section Arrays.
Context {T : Type}.

(** Python's adjustment of a slice bound [k] for a sequence of length
    [n] (step 1): negative bounds count from the end, then clamp. *)
Definition norm_index (n k : Z) : Z :=
  if (k <? 0)%Z then Z.max (k + n) 0 else Z.min k n.

Definition len (a : list T) : Z := Z.of_nat (length a).

(** [a[:stop]] *)
Definition slice_to (stop : Z) (a : list T) : list T :=
  firstn (Z.to_nat (norm_index (len a) stop)) a.

(** [dst[start:] = src] along the first axis: the shapes must agree,
    or [src] has one row, which is broadcast; anything else raises. *)
Definition set_slice_from (start : Z) (dst src : list T)
  : result (list T) :=
  let k := Z.to_nat (norm_index (len dst) start) in
  let hole := (length dst - k)%nat in
  if (length src =? hole)%nat then Ok (firstn k dst ++ src)
  else match src with
       | [x] => Ok (firstn k dst ++ repeat x hole)
       | _ => Raise BroadcastError
       end.

(** [a[i] = f(a[i])] for one row. *)
Fixpoint update_row (i : nat) (f : T -> result T) (a : list T)
  : result (list T) :=
  match a, i with
  | [], _ => Raise IndexError
  | x :: a', O => rbind (f x) (fun y => Ok (y :: a'))
  | x :: a', S i' => rbind (update_row i' f a') (fun b => Ok (x :: b))
  end.

(** Elementwise binary operation on arrays of one shape. *)
Fixpoint map2 (f : T -> T -> T) (a b : list T) : list T :=
  match a, b with
  | x :: a', y :: b' => f x y :: map2 f a' b'
  | _, _ => []
  end.

(** [a.reshape((-1, 2))] *)
Fixpoint reshape2 (a : list T) : result (list (T * T)) :=
  match a with
  | [] => Ok []
  | [_] => Raise ReshapeError
  | x :: y :: a' => rbind (reshape2 a') (fun rows => Ok ((x, y) :: rows))
  end.

(** [a.flatten()] of an (n, 2) array, row-major. *)
Definition flatten2 (rows : list (T * T)) : list T :=
  flat_map (fun row => [fst row; snd row]) rows.

End Arrays.

(** [np.max(np.abs(a))] of a 1-D array. *)
Definition amax_abs (a : list R) : result R :=
  match a with
  | [] => Raise EmptyReduction
  | x :: a' => Ok (fold_left Rmax (map Rabs a') (Rabs x))
  end.

End Np.

(** Rows of the arrays the echo loop works on: one sample (mono, a 1-D
    array) or a frame of two (stereo, an (n, 2) array).  The arithmetic is
    numpy's elementwise arithmetic on a row. *)
Class Row (T : Type) : Type := {
  rzero : T;
  radd : T -> T -> T;
  rscale : R -> T -> T
}.

#[export] Instance Row_mono : Row R := {
  rzero := 0;
  radd := Rplus;
  rscale := Rmult
}.

#[export] Instance Row_stereo : Row (R * R) := {
  rzero := (0, 0);
  radd := fun a b => (fst a + fst b, snd a + snd b);
  rscale := fun c a => (c * fst a, c * snd a)
}.

(** ** The audio segment and the maker's state *)

(** pydub's [AudioSegment] as the source uses it: 16-bit samples
    (interleaved for stereo), frame rate, channel count. *)
Record AudioSegment : Type := mkAudio {
  raw_samples : list Z;
  frame_rate : Z;
  channels : Z
}.

(** [seg._spawn(data)]: new sample data, same metadata. *)
Definition spawn (seg : AudioSegment) (data : list Z) : AudioSegment :=
  mkAudio data (frame_rate seg) (channels seg).

(** [seg._spawn(data, overrides={"frame_rate": rate})] *)
Definition spawn_with_rate (seg : AudioSegment) (data : list Z) (rate : Z)
  : AudioSegment :=
  mkAudio data rate (channels seg).

(** The attributes of a [LofiMaker] that the pipeline reads or writes. *)
Record LofiMaker : Type := mkLofiMaker {
  audio : AudioSegment;
  slow_down : bool;
  slow_speed : R;
  surround : bool;
  surround_cycle_duration : R;
  surround_depth : R;
  reverb : bool;
  reverb_decay : R;
  reverb_delay_ms : Z;
  reverb_repeats : Z;
  target_dBFS : R;
  dimension : bool;
  dimension_number : Z;
  dimension_cycle : R
}.

(** [self.audio = seg] *)
Definition set_audio (self : LofiMaker) (seg : AudioSegment) : LofiMaker :=
  mkLofiMaker seg (slow_down self) (slow_speed self) (surround self)
    (surround_cycle_duration self) (surround_depth self) (reverb self)
    (reverb_decay self) (reverb_delay_ms self) (reverb_repeats self)
    (target_dBFS self) (dimension self) (dimension_number self)
    (dimension_cycle self).

(** Two states that differ at most in [self.audio]. *)
Definition same_config (a b : LofiMaker) : Prop :=
  b = set_audio a (audio b).

(** Methods: computations on the object's state that return a value, raise
    (the state is the one at the raise) or go on undefined. *)
Definition M (A : Type) : Type := LofiMaker -> result A * LofiMaker.

Definition ret {A} (a : A) : M A := fun self => (Ok a, self).

Definition bind {A B} (m : M A) (k : A -> M B) : M B :=
  fun self =>
    match m self with
    | (Ok a, self') => k a self'
    | (Raise e, self') => (Raise e, self')
    | (Undefined, self') => (Undefined, self')
    end.

Definition lift {A} (r : result A) : M A := fun self => (r, self).

Definition get : M LofiMaker := fun self => (Ok self, self).

Definition assign_audio (seg : AudioSegment) : M unit :=
  fun self => (Ok tt, set_audio self seg).

Declare Scope method_scope.
Delimit Scope method_scope with method.
Notation "x <- c ;; k" := (bind c (fun x => k))
  (at level 61, c at next level, right associativity) : method_scope.
Notation "c ;; k" := (bind c (fun _ => k))
  (at level 61, right associativity) : method_scope.

(** [self.audio], read as an expression. *)
Definition read_audio : M AudioSegment := fun self => (Ok (audio self), self).

(** ** Reverb: the echo loop

    The two branches of [reverb_audio] run the same loop, on an (n, 2)
    array of frames or on a 1-D array of samples:
<<
    output = np.copy(samples)
    for i in range(1, self.reverb_repeats + 1):
        atten = np.zeros_like(samples)
        atten[delay_samples * i :] = samples[: -delay_samples * i] * (self.reverb_decay**i)
        output += atten
>> *)
Section Echo.
Context {T : Type} `{Row T}.

Definition zeros_like (a : list T) : list T := map (fun _ => rzero) a.

Definition echo_step (samples : list T) (delay_samples : Z) (decay : R)
    (output : list T) (i : Z) : result (list T) :=
  rbind
    (Np.set_slice_from (delay_samples * i) (zeros_like samples)
       (map (rscale (decay ^ Z.to_nat i))
            (Np.slice_to (- delay_samples * i) samples)))
    (fun atten => Ok (Np.map2 radd output atten)).

Definition echo (samples : list T) (delay_samples : Z) (decay : R)
    (repeats : Z) : result (list T) :=
  foldM (echo_step samples delay_samples decay) (range 1 (repeats + 1))
    samples.

End Echo.

(** [np.array(self.audio.get_array_of_samples()).astype(np.float32)] *)
Definition float_samples (seg : AudioSegment) : list R :=
  map IZR (raw_samples seg).

(** [int(sample_rate * self.reverb_delay_ms / 1000)] *)
Definition delay_samples (self : LofiMaker) : Z :=
  Ztrunc (IZR (frame_rate (audio self) * reverb_delay_ms self) / 1000).

Definition full_scale : R := 32767.

(** [x / peak] for array elements, numpy's division. *)
Definition div_by (peak : R) (x : R) : float := div (Fin x) (Fin peak).

Definition div_row (peak : R) (row : R * R) : float * float :=
  (div_by peak (fst row), div_by peak (snd row)).

(** The echoed array of [reverb_audio] before the peak division, flattened
    in storage order. *)
Definition reverb_echoed (self : LofiMaker) : result (list R) :=
  let samples := float_samples (audio self) in
  let d := delay_samples self in
  if (channels (audio self) =? 2)%Z then
    (frames <- Np.reshape2 samples ;;
     output <- echo frames d (reverb_decay self) (reverb_repeats self) ;;
     Ok (Np.flatten2 output))%result
  else
    echo samples d (reverb_decay self) (reverb_repeats self).

(** The array [samples * 32767] of [reverb_audio], just before
    [.astype(np.int16)]. *)
Definition reverb_float (self : LofiMaker) : result (list float) :=
  let samples := float_samples (audio self) in
  let d := delay_samples self in
  (normalized <-
     (if (channels (audio self) =? 2)%Z then
        frames <- Np.reshape2 samples ;;
        output <- echo frames d (reverb_decay self) (reverb_repeats self) ;;
        peak <- Np.amax_abs (Np.flatten2 output) ;;
        Ok (Np.flatten2 (map (div_row peak) output))
      else
        output <- echo samples d (reverb_decay self) (reverb_repeats self) ;;
        peak <- Np.amax_abs output ;;
        Ok (map (div_by peak) output)) ;;
   Ok (map (fun x => mul x (Fin full_scale)) normalized))%result.

(** The int16 samples handed to [_spawn]. *)
Definition reverb_data (self : LofiMaker) : result (list Z) :=
  rbind (reverb_float self) (mapM astype_int16).

Definition reverb_audio : M AudioSegment :=
  (self <- get ;;
   data <- lift (reverb_data self) ;;
   assign_audio (spawn (audio self) data) ;;
   read_audio)%method.

(** ** Surround and N-D panning *)

(** [np.sin(2 * np.pi * t / cycle)] with [t = (i / sample_rate) % cycle]. *)
Definition pan_phase (sample_rate : Z) (cycle : R) (i : Z) : result R :=
  (x <- py_div (IZR i) (IZR sample_rate) ;;
   t <- py_mod x cycle ;;
   Ok (sin (2 * PI * t / cycle)))%result.

Definition left_gain (pan : R) : R := (1 + pan) / 2.
Definition right_gain (pan : R) : R := (1 - pan) / 2.

(** The body of surround's loop for frame [i]. *)
Definition surround_step (self : LofiMaker) (stereo : list (R * R)) (i : Z)
  : result (list (R * R)) :=
  (s <- pan_phase (frame_rate (audio self)) (surround_cycle_duration self) i ;;
   let pan := s * surround_depth self in
   Np.update_row (Z.to_nat i)
     (fun row => Ok (fst row * left_gain pan, snd row * right_gain pan))
     stereo)%result.

(** The [stereo] array after surround's loop, before its normalisation. *)
Definition surround_panned (self : LofiMaker) : result (list (R * R)) :=
  (stereo <- Np.reshape2 (float_samples (audio self)) ;;
   foldM (surround_step self) (range 0 (Np.len stereo)) stereo)%result.

Definition scale_row (peak : R) (row : R * R) : float * float :=
  (mul (div_by peak (fst row)) (Fin full_scale),
   mul (div_by peak (snd row)) (Fin full_scale)).

(** [stereo / max_val * 32767], just before [.astype(np.int16)]. *)
Definition surround_float (self : LofiMaker) : result (list float) :=
  (stereo <- surround_panned self ;;
   max_val <- Np.amax_abs (Np.flatten2 stereo) ;;
   Ok (Np.flatten2 (map (scale_row max_val) stereo)))%result.

Definition surround_data (self : LofiMaker) : result (list Z) :=
  rbind (surround_float self) (mapM astype_int16).

Definition surround_audio : M AudioSegment :=
  (self <- get ;;
   if negb (channels (audio self) =? 2)%Z
   then lift (Raise (ValueError "Surround effect requires stereo audio."))
   else
     data <- lift (surround_data self) ;;
     assign_audio (spawn (audio self) data) ;;
     read_audio)%method.

(** [self.dimension_cycle * (self.dimension_number / 8.0)] *)
Definition nd_cycle_duration (self : LofiMaker) : R :=
  dimension_cycle self * (IZR (dimension_number self) / 8).

(** The body of the N-D loop for frame [i]; the array is the int16 array,
    so each product is truncated by [int] and stored back. *)
Definition nd_step (self : LofiMaker) (stereo : list (Z * Z)) (i : Z)
  : result (list (Z * Z)) :=
  (pan <- pan_phase (frame_rate (audio self)) (nd_cycle_duration self) i ;;
   Np.update_row (Z.to_nat i)
     (fun row =>
        l <- store_int16 (Ztrunc (IZR (fst row) * left_gain pan)) ;;
        r <- store_int16 (Ztrunc (IZR (snd row) * right_gain pan)) ;;
        Ok (l, r))
     stereo)%result.

Definition nd_data (self : LofiMaker) : result (list Z) :=
  (stereo <- Np.reshape2 (raw_samples (audio self)) ;;
   panned <- foldM (nd_step self) (range 0 (Np.len stereo)) stereo ;;
   Ok (Np.flatten2 panned))%result.

Definition apply_nd_audio_effect : M AudioSegment :=
  (self <- get ;;
   if negb (channels (audio self) =? 2)%Z
   then lift (Raise (ValueError "N-D audio effect requires stereo input."))
   else
     data <- lift (nd_data self) ;;
     assign_audio (spawn (audio self) data) ;;
     read_audio)%method.

(** ** The pydub operations behind [slow_audio] and [normalize_audio]

    [AudioSegment.set_frame_rate], [AudioSegment.max_dBFS] and
    [AudioSegment.apply_gain] are library code.  The resampler is a
    parameter.  The two loudness operations are modelled from the contract
    the specification gives for the Normalize transform; what that contract
    leaves open (how a scaled sample is rounded to an integer, and whether
    full scale is 32767 or 32768) stays a parameter. *)
Section Library.

(** [seg.set_frame_rate(rate)] *)
Variable set_frame_rate : AudioSegment -> Z -> result AudioSegment.

(** How a scaled sample is stored back as an integer. *)
Variable quantize : R -> Z.

(** The amplitude that is 0 dBFS. *)
Variable max_possible_amplitude : R.

(** The largest absolute sample value, 0 for an empty segment. *)
Definition max_amplitude (seg : AudioSegment) : Z :=
  fold_left Z.max (map Z.abs (raw_samples seg)) 0%Z.

(** Modelled from the spec: pydub's [max_dBFS], whose code is not part of
    the repository.  "The buffer's current peak level in dBFS", decibels
    relative to full scale; for a silent buffer it is negative infinity. *)
Definition max_dBFS (seg : AudioSegment) : float :=
  let ratio := IZR (max_amplitude seg) / max_possible_amplitude in
  if Req_dec_T ratio 0 then NInf
  else Fin (20 * (ln ratio / ln 10)).

(** [10 ** (db / 20)] on floats. *)
Definition db_to_float (db : float) : float :=
  match db with
  | Fin d => Fin (Rpower 10 (d / 20))
  | PInf => PInf
  | NInf => Fin 0
  | NaN => NaN
  end.

Definition store_sample (a : float) : result Z :=
  match a with
  | Fin x => Ok (quantize x)
  | _ => Undefined
  end.

(** Modelled from the spec: pydub's [apply_gain], whose code is not part
    of the repository.  "Apply a uniform multiplicative gain of
    10^(gainDelta/20) to every sample." *)
Definition apply_gain (seg : AudioSegment) (volume_change : float)
  : result AudioSegment :=
  let gain := db_to_float volume_change in
  rbind
    (mapM (fun s => store_sample (mul (Fin (IZR s)) gain))
          (raw_samples seg))
    (fun data => Ok (spawn seg data)).

(** *** The remaining methods *)

Definition slow_audio : M AudioSegment :=
  (self <- get ;;
   seg <- lift
     (set_frame_rate
        (spawn_with_rate (audio self) (raw_samples (audio self))
           (Ztrunc (IZR (frame_rate (audio self)) * slow_speed self)))
        (frame_rate (audio self))) ;;
   assign_audio seg ;;
   read_audio)%method.

Definition normalize_audio : M AudioSegment :=
  (self <- get ;;
   let change_in_dBFS :=
     sub (Fin (target_dBFS self)) (max_dBFS (audio self)) in
   seg <- lift (apply_gain (audio self) change_in_dBFS) ;;
   assign_audio seg ;;
   read_audio)%method.

(** [m() if self.flag else self.audio] *)
Definition when (flag : LofiMaker -> bool) (m : M AudioSegment)
  : M AudioSegment :=
  (self <- get ;; if flag self then m else read_audio)%method.

Definition process : M AudioSegment :=
  (when slow_down slow_audio ;;
   when reverb reverb_audio ;;
   when surround surround_audio ;;
   when dimension apply_nd_audio_effect ;;
   normalize_audio)%method.

(** *** The pipeline as the specification words it

    Five linear stages, each gated by its own flag except Normalize. *)
Inductive stage : Type := Speed | Reverb | Surround | Dimension.

Definition stage_order : list stage := [Speed; Reverb; Surround; Dimension].

Definition enabled (self : LofiMaker) (s : stage) : bool :=
  match s with
  | Speed => slow_down self
  | Reverb => reverb self
  | Surround => surround self
  | Dimension => dimension self
  end.

Definition transform (s : stage) : M AudioSegment :=
  match s with
  | Speed => slow_audio
  | Reverb => reverb_audio
  | Surround => surround_audio
  | Dimension => apply_nd_audio_effect
  end.

(** Apply the transforms of [stages] to the one buffer, in list order. *)
Fixpoint run_stages (stages : list stage) : M unit :=
  match stages with
  | [] => ret tt
  | s :: rest => (transform s ;; run_stages rest)%method
  end.

(** The gated stages of [process], written over the stage list. *)
Fixpoint gated_stages (stages : list stage) (k : M AudioSegment)
  : M AudioSegment :=
  match stages with
  | [] => k
  | s :: rest =>
      (when (fun self => enabled self s) (transform s) ;;
       gated_stages rest k)%method
  end.

Definition pipeline_spec : M AudioSegment :=
  fun self =>
    (run_stages (filter (enabled self) stage_order) ;;
     normalize_audio)%method self.

End Library.

(** ** The data-model invariant and views of a buffer *)

(** A buffer as the decoder delivers it: at least one channel, a whole
    number of frames, samples in the signed 16-bit range, a positive
    sample rate. *)
Definition well_formed (seg : AudioSegment) : Prop :=
  (0 < channels seg)%Z /\
  (Z.of_nat (length (raw_samples seg)) mod channels seg = 0)%Z /\
  Forall (fun s => in_int16 s = true) (raw_samples seg) /\
  (0 < frame_rate seg)%Z.

Definition silent (seg : AudioSegment) : Prop :=
  Forall (fun s => s = 0%Z) (raw_samples seg).

Definition non_silent (seg : AudioSegment) : Prop :=
  exists s, In s (raw_samples seg) /\ s <> 0%Z.

(** The (left, right) frames of an interleaved stereo array. *)
Fixpoint frames_of {T : Type} (a : list T) : list (T * T) :=
  match a with
  | x :: y :: a' => (x, y) :: frames_of a'
  | _ => []
  end.

(** The observed peak absolute amplitude of an array. *)
Definition peak_abs (a : list R) : R :=
  match a with
  | [] => 0
  | x :: a' => fold_left Rmax (map Rabs a') (Rabs x)
  end.

(** Divide by the peak, then scale to the largest 16-bit amplitude. *)
Definition rescale (peak : R) (x : R) : float :=
  mul (div (Fin x) (Fin peak)) (Fin full_scale).



(** ** The reverb as the specification words it

    For each repeat index [i] from 1 to [repeats]: a copy of the original
    samples shifted forward by [delay * i] rows, whose first [delay * i]
    rows are silence, attenuated by [decay ^ i], accumulated onto an output
    that starts as a copy of the original. *)
Section EchoSpec.
Context {T : Type} `{Row T}.

Definition shifted (d : nat) (samples : list T) : list T :=
  firstn (length samples) (repeat rzero d ++ samples).

Definition delay_line (samples : list T) (d : nat) (atten : R) : list T :=
  map (rscale atten) (shifted d samples).

Definition echo_spec (samples : list T) (delay : nat) (decay : R)
    (repeats : nat) : list T :=
  fold_left
    (fun output i =>
       Np.map2 radd output (delay_line samples (delay * i) (decay ^ i)))
    (seq 1 repeats) samples.

End EchoSpec.

(** The accumulated echoes in storage order: per channel on frames for
    stereo, one delay line for mono. *)
Definition reverb_echo_spec (self : LofiMaker) : list R :=
  let samples := float_samples (audio self) in
  let d := Z.to_nat (delay_samples self) in
  let n := Z.to_nat (reverb_repeats self) in
  if (channels (audio self) =? 2)%Z
  then Np.flatten2 (echo_spec (frames_of samples) d (reverb_decay self) n)
  else echo_spec samples d (reverb_decay self) n.

Definition reverb_spec (self : LofiMaker) : list float :=
  let echoed := reverb_echo_spec self in
  map (rescale (peak_abs echoed)) echoed.

(** ** The periodic pan as the specification words it *)

(** [t = (i / sampleRate) mod cycleDuration] *)
Definition pan_time (sample_rate : Z) (cycle : R) (i : nat) : R :=
  let x := INR i / IZR sample_rate in
  x - cycle * IZR (Zfloor (x / cycle)).

(** [pan = sin(2 pi t / cycleDuration) * depth] *)
Definition pan_value (sample_rate : Z) (cycle depth : R) (i : nat) : R :=
  sin (2 * PI * pan_time sample_rate cycle i / cycle) * depth.

Definition pan_frame (pan : R) (frame : R * R) : R * R :=
  (fst frame * left_gain pan, snd frame * right_gain pan).

(** [f i x] for each row [x] at index [i], counting from [k]. *)
Fixpoint mapi_from {A B : Type} (k : nat) (f : nat -> A -> B) (a : list A)
  : list B :=
  match a with
  | [] => []
  | x :: a' => f k x :: mapi_from (S k) f a'
  end.

Definition panned_spec (sample_rate : Z) (cycle depth : R)
    (frames : list (R * R)) : list (R * R) :=
  mapi_from 0 (fun i => pan_frame (pan_value sample_rate cycle depth i))
    frames.

Definition trunc_frame (frame : R * R) : Z * Z :=
  (Ztrunc (fst frame), Ztrunc (snd frame)).

(** ** Concrete makers *)

(** The defaults of [LofiMaker.__init__]. *)
Definition default_maker (seg : AudioSegment) : LofiMaker :=
  mkLofiMaker seg true (85 / 100) false 14 (7 / 10) true (3 / 10) 120 2 (-1)
    false 8 4.

(** Every effect switched off. *)
Definition bare_maker (seg : AudioSegment) : LofiMaker :=
  mkLofiMaker seg false (85 / 100) false 14 (7 / 10) false (3 / 10) 120 2
    (-1) false 8 4.

Definition quiet_mono : AudioSegment := mkAudio [100]%Z 44100 1.
Definition silent_stereo : AudioSegment := mkAudio [0; 0]%Z 44100 2.
Definition quiet_stereo : AudioSegment := mkAudio [100; 0]%Z 44100 2.



(** A delay of 5 ms at a sample rate of 100 Hz: less than one sample. *)
Definition short_delay_maker : LofiMaker :=
  mkLofiMaker (mkAudio [100]%Z 100 1) true (85 / 100) false 14 (7 / 10) true
    (3 / 10) 5 2 (-1) false 8 4.


(** ** Properties the source does not have, as predicates *)



(** The first [delay_samples] frames of Reverb's stereo output are the
    input's frames. *)
Definition reverb_keeps_prefix (self : LofiMaker) : Prop :=
  exists out, reverb_data self = Ok out /\
  forall n, (n < 2 * Z.to_nat (delay_samples self))%nat ->
            (n < length (raw_samples (audio self)))%nat ->
            nth n out 0%Z = nth n (raw_samples (audio self)) 0%Z.

(** Default Surround parameters on one loud frame. *)
Definition loud_stereo : AudioSegment := mkAudio [1000; -500]%Z 44100 2.


Definition scenario_C_maker (seg : AudioSegment) : LofiMaker :=
  mkLofiMaker seg false (85 / 100) true 2 1 false (3 / 10) 120 2 (-1)
    false 8 4.

(** ** Further concrete makers *)



(** One output sample against its input sample under a gain in [0, 1]:
    no larger in magnitude and never of the opposite sign. *)
Definition attenuated (out s : Z) : Prop :=
  (Z.abs out <= Z.abs s)%Z /\ (0 <= out * s)%Z.

(** Dimension requested with [dimension_number = 0]. *)
Definition zero_dimension_maker (seg : AudioSegment) : LofiMaker :=
  mkLofiMaker seg false (85 / 100) false 14 (7 / 10) false (3 / 10) 120 2
    (-1) true 0 4.

(** A mono buffer sent through Reverb and then Surround. *)
Definition mono_surround_maker : LofiMaker :=
  mkLofiMaker quiet_mono false (85 / 100) true 14 (7 / 10) true (3 / 10) 120
    2 (-1) false 8 4.

(** ** Methods in sequence *)

(** A method that, when it returns, has changed the buffer only, and not
    its channel count. *)
Definition keeps_channels (m : M AudioSegment) : Prop :=
  forall self a self',
    m self = (Ok a, self') ->
    same_config self self' /\
    channels (audio self') = channels (audio self).

(** A method that does not return normally from [self]. *)
Definition fails {A} (m : M A) (self : LofiMaker) : Prop :=
  forall a, fst (m self) <> Ok a.

(** A method that changes nothing but [self.audio] and returns the buffer
    it leaves there. *)
Definition returns_its_buffer (m : M AudioSegment) : Prop :=
  forall self,
    same_config self (snd (m self)) /\
    forall seg, fst (m self) = Ok seg -> audio (snd (m self)) = seg.

(** Surround switched to "no pan". *)
Definition no_pan_maker (seg : AudioSegment) : LofiMaker :=
  mkLofiMaker seg false (85 / 100) true 14 0 false (3 / 10) 120 2 (-1)
    false 8 4.


(** ** Stored samples and rounding

    The source computes in float32 and float64, the model in exact
    arithmetic, so a sample the program stores can differ from the
    model's in its last unit.  Formulas are therefore stated on the real
    values before a cast, in exact arithmetic; of the stored samples only
    what rounding cannot change is stated: lengths, bounds, the peak,
    signs and order. *)

(** A map on samples that keeps their order. *)
Definition monotone (g : Z -> Z) : Prop :=
  forall a b, (a <= b)%Z -> (g a <= g b)%Z.

(** [out] is [src] rescaled so that the amplitude [peak] becomes full
    scale: its image under one order-keeping map that leaves 0 where it
    is and takes [peak] to 32767 and [- peak] to -32767. *)
Definition full_scale_copy (peak : Z) (src out : list Z) : Prop :=
  exists g,
    monotone g /\ g 0%Z = 0%Z /\
    g peak = 32767%Z /\ g (- peak)%Z = (-32767)%Z /\
    out = map g src.

(** ** The products of the N-D loop

    [stereo[i, 0] * left_gain] and [stereo[i, 1] * right_gain] for frame
    [i], the values the loop of [apply_nd_audio_effect] hands to [int],
    in exact arithmetic. *)
Definition nd_product (self : LofiMaker) (i : Z) (row : Z * Z)
  : result (R * R) :=
  (pan <- pan_phase (frame_rate (audio self)) (nd_cycle_duration self) i ;;
   Ok (IZR (fst row) * left_gain pan, IZR (snd row) * right_gain pan))%result.

Definition nd_products (self : LofiMaker) : result (list (R * R)) :=
  (stereo <- Np.reshape2 (raw_samples (audio self)) ;;
   mapM (fun ir => nd_product self (fst ir) (snd ir))
        (combine (range 0 (Np.len stereo)) stereo))%result.

(** ** Further buffers and makers *)



(** Scenario B on 5293 stereo frames at 44100 Hz: signal on frame 0 and
    on frame 5292, where the first echo of frame 0 lands. *)
Definition scenario_B_buffer : AudioSegment :=
  mkAudio ([597; 622] ++ repeat 0 (Z.to_nat 10582) ++ [1000; -500])%Z
    44100 2.


(** Two stereo frames at 100 Hz. *)
Definition two_frames : AudioSegment :=
  mkAudio [1000; -500; 600; 400]%Z 100 2.

(** Surround with a cycle of 0.04 s and depth 0.7: at 100 Hz frame 1 is a
    quarter of the cycle. *)
Definition quarter_cycle_surround : LofiMaker :=
  mkLofiMaker two_frames false (85 / 100) true (4 / 100) (7 / 10) false
    (3 / 10) 120 2 (-1) false 8 4.



(** ** The echoes place by place

    The accumulated array at place [n] of the stored samples, in the
    specification's words: the sample itself plus, for each repeat [i]
    from 1 to [repeats], the sample [delay * i] frames earlier scaled by
    [decay ^ i], where there is one.  [stride] stored places make a frame:
    2 for stereo, 1 for mono. *)
Definition echo_at (x : nat -> R) (stride delay : nat) (decay : R)
    (repeats n : nat) : R :=
  fold_left
    (fun acc i =>
       acc + (if (n <? stride * delay * i)%nat then 0
              else decay ^ i * x (n - stride * delay * i)%nat))
    (seq 1 repeats) (x n).

(** * Properties *)

(** ** Truncation toward zero *)

Lemma Ztrunc_nonneg_eq (z : Z) (x : R) :
  0 <= x -> IZR z <= x < IZR z + 1 -> Ztrunc x = z.
Proof.
  intros Hx Hz. unfold Ztrunc.
  destruct (Rle_dec 0 x) as [_|Hn]; [|contradiction].
  apply Zfloor_eq, Hz.
Qed.

Lemma Ztrunc_neg_eq (z : Z) (x : R) :
  x < 0 -> IZR z - 1 < x <= IZR z -> Ztrunc x = z.
Proof.
  intros Hx Hz. unfold Ztrunc.
  destruct (Rle_dec 0 x) as [Hp|_]; [lra|].
  apply Zceil_eq, Hz.
Qed.

Lemma Ztrunc_IZR (z : Z) : Ztrunc (IZR z) = z.
Proof.
  destruct (Rle_dec 0 (IZR z)) as [Hp|Hn].
  - apply Ztrunc_nonneg_eq; lra.
  - apply Ztrunc_neg_eq; lra.
Qed.

(** Truncation never leaves an interval with integer ends around zero. *)
Lemma Ztrunc_between (a b : Z) (x : R) :
  (a <= 0 <= b)%Z -> IZR a <= x <= IZR b -> (a <= Ztrunc x <= b)%Z.
Proof.
  intros [Ha Hb] [Hax Hxb]. unfold Ztrunc.
  destruct (Rle_dec 0 x) as [Hp|Hn].
  - pose proof (Zfloor_bound x) as [Hlo Hhi]. split.
    + apply Z.le_trans with 0%Z; [exact Ha|].
      apply Zfloor_lub. exact Hp.
    + apply le_IZR. lra.
  - pose proof (Zceil_bound x) as [Hlo Hhi]. split.
    + apply le_IZR. lra.
    + apply Z.le_trans with 0%Z; [|exact Hb].
      assert (Hlt : (Zceil x < 1)%Z) by (apply lt_IZR; lra). lia.
Qed.

(** ** Outcomes *)

Lemma mapM_Ok {A B} (f : A -> result B) (g : A -> B) (xs : list A) :
  (forall x, In x xs -> f x = Ok (g x)) -> mapM f xs = Ok (map g xs).
Proof.
  induction xs as [|x xs IH]; intros Hf; cbn; [reflexivity|].
  rewrite (Hf x (or_introl eq_refl)); cbn.
  rewrite IH by (intros y Hy; apply Hf; right; exact Hy).
  reflexivity.
Qed.

(** ** Arrays *)

Lemma range_seq (lo : Z) (n : nat) :
  range lo (lo + Z.of_nat n) = map (fun k => (lo + Z.of_nat k)%Z) (seq 0 n).
Proof.
  unfold range. replace (lo + Z.of_nat n - lo)%Z with (Z.of_nat n) by lia.
  rewrite Nat2Z.id. reflexivity.
Qed.

Lemma range_empty (lo hi : Z) : (hi <= lo)%Z -> range lo hi = [].
Proof.
  intros H. unfold range.
  replace (Z.to_nat (hi - lo)) with 0%nat by lia. reflexivity.
Qed.

Lemma range_from_1 (r : Z) :
  range 1 (r + 1) = map Z.of_nat (seq 1 (Z.to_nat r)).
Proof.
  unfold range. replace (r + 1 - 1)%Z with r by lia.
  rewrite <- seq_shift, map_map. apply map_ext. intros k. lia.
Qed.

Lemma firstn_map_const {A B} (b : B) (k : nat) (a : list A) :
  firstn k (map (fun _ => b) a) = repeat b (Nat.min k (length a)).
Proof.
  revert k; induction a as [|x a IH]; intros [|k]; cbn; try reflexivity.
  rewrite IH. reflexivity.
Qed.

Lemma firstn_repeat {A} (b : A) (k d : nat) :
  firstn k (repeat b d) = repeat b (Nat.min k d).
Proof.
  revert d; induction k as [|k IH]; intros [|d]; cbn; try reflexivity.
  rewrite IH. reflexivity.
Qed.

Lemma map_repeat_const {A B} (f : A -> B) (a : A) (n : nat) :
  map f (repeat a n) = repeat (f a) n.
Proof. induction n; cbn; congruence. Qed.

Lemma map2_length {T} (f : T -> T -> T) (a b : list T) :
  length a = length b -> length (Np.map2 f a b) = length a.
Proof.
  revert b; induction a as [|x a IH]; intros [|y b] Hl; cbn in *;
    try reflexivity; try discriminate.
  f_equal. apply IH. congruence.
Qed.

Lemma map2_nth {T} (f : T -> T -> T) (a b : list T) (n : nat) (z : T) :
  length a = length b -> (n < length a)%nat ->
  nth n (Np.map2 f a b) z = f (nth n a z) (nth n b z).
Proof.
  revert b n; induction a as [|x a IH]; intros [|y b] [|n] Hl Hn;
    cbn in *; try lia; try reflexivity.
  apply IH; [congruence|lia].
Qed.

Lemma reshape2_frames {T} (n : nat) (a : list T) :
  length a = (2 * n)%nat -> Np.reshape2 a = Ok (frames_of a).
Proof.
  revert a; induction n as [|n IH]; intros a Hl.
  - destruct a; [reflexivity|discriminate].
  - destruct a as [|x [|y a]]; cbn in Hl; try lia.
    cbn. rewrite IH by lia. reflexivity.
Qed.

Lemma flatten2_frames {T} (n : nat) (a : list T) :
  length a = (2 * n)%nat -> Np.flatten2 (frames_of a) = a.
Proof.
  revert a; induction n as [|n IH]; intros a Hl.
  - destruct a; [reflexivity|discriminate].
  - destruct a as [|x [|y a]]; cbn in Hl; try lia.
    cbn. f_equal. f_equal. apply IH. lia.
Qed.

Lemma frames_of_length {T} (n : nat) (a : list T) :
  length a = (2 * n)%nat -> length (frames_of a) = n.
Proof.
  revert a; induction n as [|n IH]; intros a Hl.
  - destruct a; [reflexivity|discriminate].
  - destruct a as [|x [|y a]]; cbn in Hl; try lia.
    cbn. f_equal. apply IH. lia.
Qed.

Lemma flatten2_length {T} (rows : list (T * T)) :
  length (Np.flatten2 rows) = (2 * length rows)%nat.
Proof.
  induction rows as [|r rows IH]; cbn; [reflexivity|].
  unfold Np.flatten2 in IH. rewrite IH. lia.
Qed.

Lemma flatten2_map {A B} (f : A -> B) (rows : list (A * A)) :
  Np.flatten2 (map (fun row => (f (fst row), f (snd row))) rows) =
  map f (Np.flatten2 rows).
Proof.
  induction rows as [|r rows IH]; cbn; [reflexivity|].
  unfold Np.flatten2 in IH. rewrite IH. reflexivity.
Qed.

Lemma flatten2_In {T} (x : T) (rows : list (T * T)) :
  In x (Np.flatten2 rows) <->
  exists row, In row rows /\ (x = fst row \/ x = snd row).
Proof.
  unfold Np.flatten2. rewrite in_flat_map. split.
  - intros [row [Hr Hx]]. exists row. split; [exact Hr|].
    cbn in Hx. destruct Hx as [<-|[<-|[]]]; auto.
  - intros [row [Hr Hx]]. exists row. split; [exact Hr|].
    cbn. destruct Hx as [->| ->]; auto.
Qed.

(** ** The echo loop *)

Section EchoFacts.
Context {T : Type} `{Row T}.
Hypothesis radd_zero_r : forall x : T, radd x rzero = x.
Hypothesis rscale_zero : forall c : R, rscale c rzero = rzero.

Lemma shifted_length (d : nat) (samples : list T) :
  length (shifted d samples) = length samples.
Proof.
  unfold shifted. rewrite length_firstn, length_app, repeat_length. lia.
Qed.

Lemma delay_line_length (samples : list T) (d : nat) (c : R) :
  length (delay_line samples d c) = length samples.
Proof. unfold delay_line. rewrite length_map. apply shifted_length. Qed.

Lemma shifted_nth (d n : nat) (samples : list T) :
  (n < length samples)%nat ->
  nth n (shifted d samples) rzero =
  if (n <? d)%nat then rzero else nth (n - d) samples rzero.
Proof.
  intros Hn. unfold shifted. rewrite nth_firstn.
  replace (n <? length samples)%nat with true
    by (symmetry; apply Nat.ltb_lt; exact Hn).
  destruct (n <? d)%nat eqn:Hd.
  - apply Nat.ltb_lt in Hd.
    rewrite app_nth1 by (rewrite repeat_length; exact Hd).
    apply nth_repeat.
  - apply Nat.ltb_ge in Hd.
    rewrite app_nth2 by (rewrite repeat_length; exact Hd).
    rewrite repeat_length. reflexivity.
Qed.

Lemma delay_line_nth (samples : list T) (d n : nat) (c : R) :
  (n < length samples)%nat ->
  nth n (delay_line samples d c) rzero =
  if (n <? d)%nat then rzero else rscale c (nth (n - d) samples rzero).
Proof.
  intros Hn. unfold delay_line.
  rewrite <- (rscale_zero c) at 1. rewrite map_nth.
  rewrite shifted_nth by exact Hn.
  destruct (n <? d)%nat; [apply rscale_zero|reflexivity].
Qed.

(** One pass of the loop builds the delay line of the specification's
    words: the slice bounds agree and nothing is raised. *)
Lemma echo_step_spec (samples output : list T) (D : Z) (c : R) (k : nat) :
  (1 <= D)%Z -> (1 <= k)%nat ->
  echo_step samples D c output (Z.of_nat k) =
  Ok (Np.map2 radd output (delay_line samples (Z.to_nat D * k) (c ^ k))).
Proof.
  intros HD Hk. unfold echo_step.
  set (n := length samples). set (d := (Z.to_nat D * k)%nat).
  assert (Hd1 : (1 <= d)%nat) by (unfold d; nia).
  assert (Hstop : Z.to_nat (Np.norm_index (Z.of_nat n) (- D * Z.of_nat k))
                  = (n - d)%nat).
  { unfold Np.norm_index.
    destruct (- D * Z.of_nat k <? 0)%Z eqn:E;
      [apply Z.ltb_lt in E|apply Z.ltb_ge in E]; unfold d; nia. }
  assert (Hstart : Z.to_nat (Np.norm_index (Z.of_nat n) (D * Z.of_nat k))
                   = Nat.min d n).
  { unfold Np.norm_index.
    destruct (D * Z.of_nat k <? 0)%Z eqn:E;
      [apply Z.ltb_lt in E|apply Z.ltb_ge in E]; unfold d; nia. }
  unfold Np.slice_to, Np.set_slice_from, Np.len, zeros_like.
  rewrite !length_map. fold n. rewrite Hstop, Hstart, Nat2Z.id.
  rewrite length_firstn. fold n.
  replace (Nat.min (n - d) n =? n - Nat.min d n)%nat with true
    by (symmetry; apply Nat.eqb_eq; lia).
  cbn [rbind]. do 2 f_equal.
  unfold delay_line, shifted. fold n.
  rewrite firstn_app, repeat_length, firstn_repeat, map_app,
    map_repeat_const, rscale_zero, firstn_map_const.
  fold n. f_equal. f_equal. lia.
Qed.

Lemma echo_loop_spec (samples : list T) (D : Z) (c : R) (ks : list nat)
    (output : list T) :
  (1 <= D)%Z -> Forall (fun k => (1 <= k)%nat) ks ->
  foldM (echo_step samples D c) (map Z.of_nat ks) output =
  Ok (fold_left
        (fun out k =>
           Np.map2 radd out (delay_line samples (Z.to_nat D * k) (c ^ k)))
        ks output).
Proof.
  intros HD Hks. revert output.
  induction Hks as [|k ks Hk _ IH]; intros output; cbn; [reflexivity|].
  rewrite echo_step_spec by assumption. cbn. apply IH.
Qed.

(** The loop of the source computes the accumulated echoes of the
    specification whenever the delay is at least one row. *)
Lemma echo_refines (samples : list T) (D : Z) (c : R) (repeats : Z) :
  (1 <= D)%Z ->
  echo samples D c repeats =
  Ok (echo_spec samples (Z.to_nat D) c (Z.to_nat repeats)).
Proof.
  intros HD. unfold echo, echo_spec. rewrite range_from_1.
  apply echo_loop_spec; [exact HD|].
  apply Forall_forall. intros k Hk. apply in_seq in Hk. lia.
Qed.

(** With no repeat the loop body never runs. *)
Lemma echo_no_repeat (samples : list T) (D : Z) (c : R) (repeats : Z) :
  (repeats <= 0)%Z -> echo samples D c repeats = Ok samples.
Proof.
  intros Hr. unfold echo. rewrite range_empty by lia. reflexivity.
Qed.

(** A delay of zero rows makes the first pass fail on a non-empty array:
    [samples[:-0]] is empty and cannot fill [atten[0:]]. *)
Lemma echo_zero_delay (samples : list T) (c : R) (repeats : Z) :
  samples <> [] -> (1 <= repeats)%Z ->
  echo samples 0 c repeats = Raise BroadcastError.
Proof.
  intros Hne Hr. unfold echo. rewrite range_from_1.
  destruct (Z.to_nat repeats) as [|r] eqn:Er; [lia|].
  cbn [seq map foldM]. unfold echo_step at 1.
  unfold Np.slice_to, Np.set_slice_from, Np.norm_index, Np.len, zeros_like.
  rewrite length_map.
  destruct samples as [|x samples]; [contradiction|].
  cbn. reflexivity.
Qed.

Lemma echo_fold_length (samples : list T) (d : nat) (c : R) (ks : list nat)
    (output : list T) :
  length output = length samples ->
  length (fold_left
            (fun out k => Np.map2 radd out (delay_line samples (d * k) (c ^ k)))
            ks output) = length samples.
Proof.
  revert output; induction ks as [|k ks IH]; intros output Hl; cbn.
  - exact Hl.
  - apply IH. rewrite map2_length; [exact Hl|].
    rewrite delay_line_length. exact Hl.
Qed.

Lemma echo_spec_length (samples : list T) (d : nat) (c : R) (r : nat) :
  length (echo_spec samples d c r) = length samples.
Proof. apply echo_fold_length. reflexivity. Qed.

(** Where every sample an echo would read is silence, the output is the
    original sample. *)
Lemma echo_spec_nth_clean (samples : list T) (d : nat) (c : R) (r n : nat) :
  (n < length samples)%nat ->
  (forall k, (1 <= k)%nat -> (d * k <= n)%nat ->
             nth (n - d * k) samples rzero = rzero) ->
  nth n (echo_spec samples d c r) rzero = nth n samples rzero.
Proof.
  intros Hn Hclean. unfold echo_spec.
  assert (Hgen : forall ks output,
    Forall (fun k => (1 <= k)%nat) ks ->
    length output = length samples ->
    nth n (fold_left
             (fun out k =>
                Np.map2 radd out (delay_line samples (d * k) (c ^ k)))
             ks output) rzero = nth n output rzero).
  { intros ks. induction ks as [|k ks IH]; intros output Hks Hl; cbn.
    - reflexivity.
    - inversion Hks as [|? ? Hk Hks']; subst.
      rewrite IH.
      + rewrite map2_nth.
        * rewrite delay_line_nth by exact Hn.
          destruct (n <? d * k)%nat eqn:Hd.
          -- apply radd_zero_r.
          -- apply Nat.ltb_ge in Hd.
             rewrite Hclean by assumption.
             rewrite rscale_zero. apply radd_zero_r.
        * rewrite delay_line_length. exact Hl.
        * rewrite Hl. exact Hn.
      + exact Hks'.
      + rewrite map2_length; [exact Hl|].
        rewrite delay_line_length. exact Hl. }
  apply Hgen; [|reflexivity].
  apply Forall_forall. intros k Hk. apply in_seq in Hk. lia.
Qed.

(** No echo has arrived in the first [d] rows. *)
Lemma echo_spec_prefix (samples : list T) (d : nat) (c : R) (r n : nat) :
  (n < d)%nat -> (n < length samples)%nat ->
  nth n (echo_spec samples d c r) rzero = nth n samples rzero.
Proof.
  intros Hd Hn. apply echo_spec_nth_clean; [exact Hn|].
  intros k Hk Hle. nia.
Qed.

(** A silent output can only come from a silent input. *)
Lemma echo_spec_silent_inv (samples : list T) (d : nat) (c : R) (r : nat) :
  (1 <= d)%nat ->
  (forall n, (n < length samples)%nat ->
             nth n (echo_spec samples d c r) rzero = rzero) ->
  forall n, (n < length samples)%nat -> nth n samples rzero = rzero.
Proof.
  intros Hd Hout n. induction n as [n IH] using lt_wf_ind. intros Hn.
  rewrite <- (echo_spec_nth_clean samples d c r n Hn).
  - apply Hout, Hn.
  - intros k Hk Hle. apply IH; nia.
Qed.

End EchoFacts.

Lemma mono_add_zero (x : R) : radd x rzero = x.
Proof. cbn. lra. Qed.

Lemma mono_scale_zero (c : R) : rscale c (rzero : R) = rzero.
Proof. cbn. lra. Qed.

Lemma stereo_add_zero (x : R * R) : radd x rzero = x.
Proof. destruct x; cbn. f_equal; lra. Qed.

Lemma stereo_scale_zero (c : R) : rscale c (rzero : R * R) = rzero.
Proof. cbn. f_equal; lra. Qed.

(** ** The observed peak and the rescaling to full scale *)

Lemma fold_left_Rmax_ge_acc (l : list R) (a : R) : a <= fold_left Rmax l a.
Proof.
  revert a; induction l as [|x l IH]; intros a; cbn; [lra|].
  eapply Rle_trans; [apply (Rmax_l a x)|apply IH].
Qed.

Lemma fold_left_Rmax_ge_In (l : list R) (a x : R) :
  In x l -> x <= fold_left Rmax l a.
Proof.
  revert a; induction l as [|y l IH]; intros a Hin; [destruct Hin|].
  destruct Hin as [Hx|Hx]; cbn.
  - subst y. eapply Rle_trans; [apply (Rmax_r a x)|].
    apply fold_left_Rmax_ge_acc.
  - apply IH, Hx.
Qed.

Lemma fold_left_Rmax_attained (l : list R) (a : R) :
  fold_left Rmax l a = a \/ In (fold_left Rmax l a) l.
Proof.
  revert a; induction l as [|y l IH]; intros a; cbn; [left; reflexivity|].
  destruct (IH (Rmax a y)) as [He|Hin].
  - rewrite He. unfold Rmax. destruct (Rle_dec a y); auto.
  - right; right; exact Hin.
Qed.

Lemma peak_abs_ge (l : list R) (x : R) : In x l -> Rabs x <= peak_abs l.
Proof.
  destruct l as [|y l]; [intros []|]. intros [Hx|Hx]; cbn.
  - subst y. apply fold_left_Rmax_ge_acc.
  - apply fold_left_Rmax_ge_In, in_map, Hx.
Qed.

Lemma peak_abs_attained (l : list R) :
  l <> [] -> exists x, In x l /\ Rabs x = peak_abs l.
Proof.
  destruct l as [|y l]; [congruence|]. intros _. cbn [peak_abs].
  destruct (fold_left_Rmax_attained (map Rabs l) (Rabs y)) as [He|Hin].
  - exists y. split; [left; reflexivity|symmetry; exact He].
  - apply in_map_iff in Hin. destruct Hin as [x [Hx Hin]].
    exists x. split; [right; exact Hin|exact Hx].
Qed.

Lemma peak_abs_nonneg (l : list R) : 0 <= peak_abs l.
Proof.
  destruct l as [|y l]; cbn; [lra|].
  eapply Rle_trans; [apply (Rabs_pos y)|apply fold_left_Rmax_ge_acc].
Qed.

Lemma peak_abs_pos (l : list R) (x : R) :
  In x l -> x <> 0 -> 0 < peak_abs l.
Proof.
  intros Hin Hx. pose proof (peak_abs_ge l x Hin).
  pose proof (Rabs_pos_lt x Hx). lra.
Qed.

Lemma peak_abs_zero (l : list R) :
  (forall x, In x l -> x = 0) -> peak_abs l = 0.
Proof.
  intros Hz. destruct l as [|y l]; [reflexivity|].
  destruct (peak_abs_attained (y :: l)) as [x [Hin Hx]]; [discriminate|].
  rewrite <- Hx, (Hz x Hin). apply Rabs_R0.
Qed.

Lemma amax_abs_peak (l : list R) :
  l <> [] -> Np.amax_abs l = Ok (peak_abs l).
Proof. destruct l; [congruence|reflexivity]. Qed.

Lemma rescale_nonzero (peak x : R) :
  peak <> 0 -> rescale peak x = Fin (x / peak * full_scale).
Proof.
  intros Hp. unfold rescale, div.
  destruct (Req_dec_T peak 0); [contradiction|reflexivity].
Qed.

Lemma rescale_zero_by_zero : rescale 0 0 = NaN.
Proof.
  unfold rescale, div.
  destruct (Req_dec_T 0 0) as [_|Hn]; [reflexivity|contradiction].
Qed.

Lemma rescaled_bound (peak x : R) :
  0 < peak -> Rabs x <= peak -> Rabs (x / peak * full_scale) <= full_scale.
Proof.
  intros Hp Hx. unfold full_scale.
  rewrite Rabs_mult, (Rabs_right 32767) by lra.
  unfold Rdiv. rewrite Rabs_mult, (Rabs_right (/ peak)).
  - assert (Rabs x * / peak <= 1).
    { apply Rmult_le_reg_r with peak; [exact Hp|].
      rewrite Rmult_assoc, Rinv_l by lra. lra. }
    pose proof (Rabs_pos x). nra.
  - apply Rle_ge. left. apply Rinv_0_lt_compat, Hp.
Qed.

Lemma rescaled_peak (peak x : R) :
  0 < peak -> Rabs x = peak -> Rabs (x / peak * full_scale) = full_scale.
Proof.
  intros Hp Hx. unfold full_scale.
  rewrite Rabs_mult, (Rabs_right 32767) by lra.
  unfold Rdiv. rewrite Rabs_mult, (Rabs_right (/ peak)).
  - rewrite Hx, Rinv_r by lra. lra.
  - apply Rle_ge. left. apply Rinv_0_lt_compat, Hp.
Qed.

Lemma Rabs_le_between (a b : Z) (x : R) :
  Rabs x <= IZR b -> (a <= - b)%Z -> IZR a <= x <= IZR b.
Proof.
  intros Hx Hab. apply IZR_le in Hab. rewrite opp_IZR in Hab.
  unfold Rabs in Hx. destruct (Rcase_abs x); lra.
Qed.

Lemma astype_int16_in_range (y : R) :
  Rabs y <= full_scale -> astype_int16 (Fin y) = Ok (Ztrunc y).
Proof.
  intros Hy. unfold astype_int16, in_int16, int16_min, int16_max.
  assert (Hb : (-32768 <= Ztrunc y <= 32767)%Z).
  { apply Ztrunc_between; [lia|].
    apply Rabs_le_between; [exact Hy|lia]. }
  destruct Hb as [Hlo Hhi].
  apply Z.leb_le in Hlo, Hhi. rewrite Hlo, Hhi. reflexivity.
Qed.

(** ** Reverb *)

Lemma wf_stereo_even (seg : AudioSegment) :
  well_formed seg -> channels seg = 2%Z ->
  exists n, length (raw_samples seg) = (2 * n)%nat.
Proof.
  intros (_ & Hmod & _) Hch. rewrite Hch in Hmod.
  exists (Z.to_nat (Z.of_nat (length (raw_samples seg)) / 2)).
  apply Z.mod_divide in Hmod; [|lia]. destruct Hmod as [q Hq].
  rewrite Hq, Z.div_mul by lia. lia.
Qed.

Lemma float_samples_length (seg : AudioSegment) :
  length (float_samples seg) = length (raw_samples seg).
Proof. apply length_map. Qed.

Lemma reverb_echo_spec_length (self : LofiMaker) :
  well_formed (audio self) ->
  length (reverb_echo_spec self) = length (raw_samples (audio self)).
Proof.
  intros Hwf. unfold reverb_echo_spec.
  destruct (channels (audio self) =? 2)%Z eqn:Hch.
  - apply Z.eqb_eq in Hch.
    destruct (wf_stereo_even _ Hwf Hch) as [n Hn].
    rewrite flatten2_length, echo_spec_length.
    rewrite (frames_of_length n) by (rewrite float_samples_length; exact Hn).
    lia.
  - rewrite echo_spec_length. apply float_samples_length.
Qed.

(** The echoed array of the source is the one of the specification. *)
Lemma reverb_echoed_refines (self : LofiMaker) :
  well_formed (audio self) -> (1 <= delay_samples self)%Z ->
  reverb_echoed self = Ok (reverb_echo_spec self).
Proof.
  intros Hwf HD. unfold reverb_echoed, reverb_echo_spec.
  destruct (channels (audio self) =? 2)%Z eqn:Hch.
  - apply Z.eqb_eq in Hch.
    destruct (wf_stereo_even _ Hwf Hch) as [n Hn].
    rewrite (reshape2_frames n) by (rewrite float_samples_length; exact Hn).
    cbn [rbind].
    rewrite (echo_refines stereo_scale_zero) by exact HD.
    reflexivity.
  - apply (echo_refines mono_scale_zero). exact HD.
Qed.

(** The float array of the source is the rescaled echoed array. *)
Lemma reverb_float_refines (self : LofiMaker) :
  well_formed (audio self) -> raw_samples (audio self) <> [] ->
  (1 <= delay_samples self)%Z ->
  reverb_float self = Ok (reverb_spec self).
Proof.
  intros Hwf Hne HD.
  pose proof (reverb_echo_spec_length self Hwf) as Hlen.
  assert (Hne' : reverb_echo_spec self <> []).
  { intros He. rewrite He in Hlen. destruct (raw_samples (audio self));
      [congruence|discriminate]. }
  unfold reverb_float, reverb_spec. revert Hne'. unfold reverb_echo_spec.
  destruct (channels (audio self) =? 2)%Z eqn:Hch; intros Hne'.
  - apply Z.eqb_eq in Hch.
    destruct (wf_stereo_even _ Hwf Hch) as [n Hn].
    rewrite (reshape2_frames n) by (rewrite float_samples_length; exact Hn).
    cbn [rbind].
    rewrite (echo_refines stereo_scale_zero) by exact HD.
    cbn [rbind]. rewrite amax_abs_peak by exact Hne'. cbn [rbind].
    unfold div_row.
    rewrite (flatten2_map (div_by _)), map_map. reflexivity.
  - rewrite (echo_refines mono_scale_zero) by exact HD.
    cbn [rbind]. rewrite amax_abs_peak by exact Hne'. cbn [rbind].
    rewrite map_map. reflexivity.
Qed.

Lemma Forall_flatten2 {T} (P : T -> Prop) (rows : list (T * T)) :
  Forall P (Np.flatten2 rows) <->
  Forall (fun row => P (fst row) /\ P (snd row)) rows.
Proof.
  induction rows as [|r rows IH]; cbn.
  - split; constructor.
  - split; intros Hall.
    + inversion Hall as [|? ? H1 Hr]; subst.
      inversion Hr as [|? ? H2 Hr']; subst.
      constructor; [auto|]. apply IH. exact Hr'.
    + inversion Hall as [|? ? [H1 H2] Hr]; subst.
      constructor; [exact H1|]. constructor; [exact H2|].
      apply IH. exact Hr.
Qed.

Lemma frames_of_Forall {T} (P : T -> Prop) (a : list T) :
  Forall P a -> Forall (fun row => P (fst row) /\ P (snd row)) (frames_of a).
Proof.
  revert a. fix IH 1. intros [|x [|y a]] Hall; cbn; try constructor.
  - inversion Hall as [|? ? H1 Hr]; subst.
    inversion Hr as [|? ? H2 Hr']; subst. auto.
  - apply IH. inversion Hall as [|? ? H1 Hr]; subst.
    inversion Hr; subst. assumption.
Qed.

Lemma all_zero_dec (l : list R) :
  Forall (fun x => x = 0) l \/ exists x, In x l /\ x <> 0.
Proof.
  induction l as [|y l [IH|[x [Hin Hx]]]].
  - left; constructor.
  - destruct (Req_dec_T y 0) as [Hy|Hy].
    + left; constructor; assumption.
    + right; exists y; split; [left; reflexivity|exact Hy].
  - right; exists x; split; [right; exact Hin|exact Hx].
Qed.

Lemma stereo_zero_iff (row : R * R) :
  row = rzero <-> fst row = 0 /\ snd row = 0.
Proof.
  destruct row as [l r]; cbn. split.
  - intros He; inversion He; auto.
  - intros [-> ->]; reflexivity.
Qed.

Section EchoSilence.
Context {T : Type} `{Row T}.
Hypothesis radd_zero_r : forall x : T, radd x rzero = x.
Hypothesis rscale_zero : forall c : R, rscale c rzero = rzero.

Lemma echo_spec_silent (samples : list T) (d : nat) (c : R) (r : nat) :
  Forall (fun x => x = rzero) samples ->
  Forall (fun x => x = rzero) (echo_spec samples d c r).
Proof.
  intros Hs. apply Forall_nth. intros n z Hn.
  rewrite echo_spec_length in Hn by assumption.
  rewrite (nth_indep _ z rzero) by (rewrite echo_spec_length; assumption).
  rewrite echo_spec_nth_clean by assumption || (intros k _ _;
    destruct (Nat.lt_ge_cases (n - d * k) (length samples)) as [Hlt|Hge];
    [apply (proj1 (Forall_nth _ samples) Hs _ rzero Hlt)
    |apply nth_overflow, Hge]).
  apply (proj1 (Forall_nth _ samples) Hs _ rzero Hn).
Qed.

Lemma echo_spec_silent_only (samples : list T) (d : nat) (c : R) (r : nat) :
  (1 <= d)%nat ->
  Forall (fun x => x = rzero) (echo_spec samples d c r) ->
  Forall (fun x => x = rzero) samples.
Proof.
  intros Hd He. apply Forall_nth. intros n z Hn.
  rewrite (nth_indep _ z rzero) by exact Hn.
  apply (echo_spec_silent_inv radd_zero_r rscale_zero samples d c r Hd);
    [|exact Hn].
  intros m Hm. apply (proj1 (Forall_nth _ _) He).
  rewrite echo_spec_length by assumption. exact Hm.
Qed.

End EchoSilence.

Lemma float_samples_silent (seg : AudioSegment) :
  silent seg <-> Forall (fun x => x = 0) (float_samples seg).
Proof.
  unfold silent, float_samples. rewrite Forall_map. split; intros Hall;
    (eapply Forall_impl; [|exact Hall]); cbn; intros s Hs.
  - subst s. reflexivity.
  - apply eq_IZR. exact Hs.
Qed.

Lemma non_silent_not_silent (seg : AudioSegment) :
  non_silent seg -> ~ silent seg.
Proof.
  intros [s [Hin Hs]] Hall. apply Hs.
  apply (proj1 (Forall_forall _ _) Hall s Hin).
Qed.

(** The echoed array is silent exactly when the input is. *)
Lemma reverb_echo_spec_silent (self : LofiMaker) :
  well_formed (audio self) -> silent (audio self) ->
  Forall (fun x => x = 0) (reverb_echo_spec self).
Proof.
  intros Hwf Hs. apply float_samples_silent in Hs. unfold reverb_echo_spec.
  destruct (channels (audio self) =? 2)%Z.
  - apply (Forall_flatten2 (fun x => x = 0)).
    eapply Forall_impl; [intros row; apply stereo_zero_iff|].
    apply (echo_spec_silent stereo_add_zero stereo_scale_zero).
    eapply Forall_impl; [intros row; apply stereo_zero_iff|].
    apply (frames_of_Forall (fun x => x = 0)). exact Hs.
  - apply (echo_spec_silent mono_add_zero mono_scale_zero). exact Hs.
Qed.

Lemma reverb_echo_spec_silent_only (self : LofiMaker) :
  well_formed (audio self) -> (1 <= delay_samples self)%Z ->
  Forall (fun x => x = 0) (reverb_echo_spec self) -> silent (audio self).
Proof.
  intros Hwf HD He. apply float_samples_silent. revert He.
  unfold reverb_echo_spec.
  destruct (channels (audio self) =? 2)%Z eqn:Hch; intros He.
  - apply Z.eqb_eq in Hch.
    destruct (wf_stereo_even _ Hwf Hch) as [n Hn].
    rewrite <- (flatten2_frames n (float_samples (audio self)))
      by (rewrite float_samples_length; exact Hn).
    apply (Forall_flatten2 (fun x => x = 0)).
    eapply Forall_impl; [intros row; apply stereo_zero_iff|].
    apply (echo_spec_silent_only stereo_add_zero stereo_scale_zero)
      with (d := Z.to_nat (delay_samples self)) (c := reverb_decay self)
           (r := Z.to_nat (reverb_repeats self)); [lia|].
    eapply Forall_impl; [intros row; apply stereo_zero_iff|].
    apply (Forall_flatten2 (fun x => x = 0)). exact He.
  - apply (echo_spec_silent_only mono_add_zero mono_scale_zero)
      with (d := Z.to_nat (delay_samples self)) (c := reverb_decay self)
           (r := Z.to_nat (reverb_repeats self)); [lia|exact He].
Qed.

Lemma reverb_echo_peak_pos (self : LofiMaker) :
  well_formed (audio self) -> (1 <= delay_samples self)%Z ->
  non_silent (audio self) -> 0 < peak_abs (reverb_echo_spec self).
Proof.
  intros Hwf HD Hns.
  destruct (all_zero_dec (reverb_echo_spec self)) as [Hz|[x [Hin Hx]]].
  - exfalso. apply (non_silent_not_silent _ Hns).
    apply reverb_echo_spec_silent_only; assumption.
  - apply (peak_abs_pos _ x); assumption.
Qed.

Lemma mapM_map {A B C} (f : B -> result C) (g : A -> B) (xs : list A) :
  mapM f (map g xs) = mapM (fun x => f (g x)) xs.
Proof.
  induction xs as [|x xs IH]; cbn; [reflexivity|]. rewrite IH. reflexivity.
Qed.

Lemma non_silent_nonempty (seg : AudioSegment) :
  non_silent seg -> raw_samples seg <> [].
Proof. intros [s [Hin _]] He. rewrite He in Hin. exact Hin. Qed.

(** On a buffer that is not silent the cast is defined: every rescaled
    sample lies within full scale. *)
Lemma reverb_data_non_silent (self : LofiMaker) :
  well_formed (audio self) -> (1 <= delay_samples self)%Z ->
  non_silent (audio self) ->
  reverb_data self =
  Ok (map (fun x =>
             Ztrunc (x / peak_abs (reverb_echo_spec self) * full_scale))
          (reverb_echo_spec self)).
Proof.
  intros Hwf HD Hns. unfold reverb_data.
  rewrite reverb_float_refines
    by (try assumption; apply non_silent_nonempty; assumption).
  cbn [rbind]. unfold reverb_spec. rewrite mapM_map.
  pose proof (reverb_echo_peak_pos self Hwf HD Hns) as Hpos.
  apply mapM_Ok. intros x Hin.
  rewrite rescale_nonzero by lra.
  apply astype_int16_in_range, rescaled_bound;
    [exact Hpos|apply peak_abs_ge, Hin].
Qed.


(** On a silent buffer the peak is 0 and every element is [0 / 0]. *)
Lemma reverb_float_silent (self : LofiMaker) :
  well_formed (audio self) -> raw_samples (audio self) <> [] ->
  (1 <= delay_samples self)%Z -> silent (audio self) ->
  reverb_float self = Ok (repeat NaN (length (raw_samples (audio self)))).
Proof.
  intros Hwf Hne HD Hs.
  rewrite reverb_float_refines by assumption. f_equal.
  unfold reverb_spec.
  pose proof (reverb_echo_spec_silent self Hwf Hs) as Hz.
  rewrite peak_abs_zero by (apply Forall_forall; exact Hz).
  rewrite <- (reverb_echo_spec_length self Hwf).
  induction Hz as [|x l Hx _ IH]; cbn; [reflexivity|].
  rewrite Hx, rescale_zero_by_zero, IH. reflexivity.
Qed.

Lemma reverb_data_silent (self : LofiMaker) :
  well_formed (audio self) -> raw_samples (audio self) <> [] ->
  (1 <= delay_samples self)%Z -> silent (audio self) ->
  reverb_data self = Undefined.
Proof.
  intros Hwf Hne HD Hs. unfold reverb_data.
  rewrite reverb_float_silent by assumption. cbn [rbind].
  destruct (raw_samples (audio self)); [congruence|reflexivity].
Qed.

Lemma flatten2_nth {T} (rows : list (T * T)) (k : nat) (z : T) :
  nth (2 * k) (Np.flatten2 rows) z = fst (nth k rows (z, z)) /\
  nth (2 * k + 1) (Np.flatten2 rows) z = snd (nth k rows (z, z)).
Proof.
  revert k; induction rows as [|r rows IH]; intros k.
  - cbn. destruct (2 * k)%nat, (2 * k + 1)%nat, k; auto.
  - destruct k as [|k].
    + cbn. auto.
    + replace (2 * S k)%nat with (S (S (2 * k))) by lia.
      replace (S (S (2 * k)) + 1)%nat with (S (S (2 * k + 1))) by lia.
      cbn [Np.flatten2 flat_map app nth]. apply IH.
Qed.

Lemma frames_of_nth {T} (a : list T) (k : nat) (z : T) :
  (2 * k + 1 < length a)%nat ->
  nth k (frames_of a) (z, z) = (nth (2 * k) a z, nth (2 * k + 1) a z).
Proof.
  revert a; induction k as [|k IH]; intros a Hk.
  - destruct a as [|x [|y a]]; cbn in Hk; try lia. reflexivity.
  - destruct a as [|x [|y a]]; cbn in Hk; try lia.
    replace (2 * S k)%nat with (S (S (2 * k))) by lia.
    replace (S (S (2 * k)) + 1)%nat with (S (S (2 * k + 1))) by lia.
    cbn [frames_of nth]. apply IH. lia.
Qed.

(** The first [delay_samples] frames of the echoed stereo array are the
    original frames. *)
Lemma reverb_echo_prefix_stereo (self : LofiMaker) (k : nat) :
  well_formed (audio self) -> channels (audio self) = 2%Z ->
  (k < Z.to_nat (delay_samples self))%nat ->
  (2 * k + 1 < length (raw_samples (audio self)))%nat ->
  nth (2 * k) (reverb_echo_spec self) 0
    = IZR (nth (2 * k) (raw_samples (audio self)) 0%Z) /\
  nth (2 * k + 1) (reverb_echo_spec self) 0
    = IZR (nth (2 * k + 1) (raw_samples (audio self)) 0%Z).
Proof.
  intros Hwf Hch Hk Hlen. unfold reverb_echo_spec.
  rewrite (proj2 (Z.eqb_eq _ _) Hch).
  destruct (wf_stereo_even _ Hwf Hch) as [n Hn].
  pose proof (float_samples_length (audio self)) as Hfl.
  destruct (flatten2_nth
              (echo_spec (frames_of (float_samples (audio self)))
                 (Z.to_nat (delay_samples self)) (reverb_decay self)
                 (Z.to_nat (reverb_repeats self))) k 0) as [-> ->].
  change (0, 0) with (rzero : R * R).
  rewrite (echo_spec_prefix stereo_add_zero stereo_scale_zero)
    by (try exact Hk; rewrite (frames_of_length n); lia).
  change (rzero : R * R) with (0, 0).
  rewrite frames_of_nth by lia. cbn [fst snd].
  unfold float_samples. change 0 with (IZR 0).
  rewrite !map_nth. auto.
Qed.

(** The delay of the default configuration at 44100 Hz. *)
Lemma delay_samples_44100_120 (self : LofiMaker) :
  frame_rate (audio self) = 44100%Z -> reverb_delay_ms self = 120%Z ->
  delay_samples self = 5292%Z.
Proof.
  intros Hr Hd. unfold delay_samples. rewrite Hr, Hd.
  change (44100 * 120)%Z with 5292000%Z.
  apply Ztrunc_nonneg_eq; lra.
Qed.
Lemma reverb_audio_run (self : LofiMaker) :
  reverb_audio self =
  match reverb_data self with
  | Ok data => (Ok (spawn (audio self) data),
                set_audio self (spawn (audio self) data))
  | Raise e => (Raise e, self)
  | Undefined => (Undefined, self)
  end.
Proof.
  unfold reverb_audio, bind, get, lift, assign_audio, read_audio.
  destruct (reverb_data self); reflexivity.
Qed.



Lemma wf_quiet_stereo : well_formed quiet_stereo.
Proof.
  unfold well_formed; cbn. repeat split; try lia.
  repeat constructor.
Qed.

Lemma wf_silent_stereo : well_formed silent_stereo.
Proof.
  unfold well_formed; cbn. repeat split; try lia.
  repeat constructor.
Qed.

Lemma Rabs_100 : Rabs 100 = 100.
Proof. apply Rabs_right. lra. Qed.

Lemma trunc_full : Ztrunc (100 / 100 * full_scale) = 32767%Z.
Proof. unfold full_scale. apply Ztrunc_nonneg_eq; lra. Qed.

Lemma trunc_zero (p : R) : Ztrunc (0 / p * full_scale) = 0%Z.
Proof.
  replace (0 / p * full_scale) with (IZR 0) by (unfold Rdiv; ring).
  apply Ztrunc_IZR.
Qed.

Lemma reverb_float_of_echoed (self : LofiMaker) (e : list R) :
  reverb_echoed self = Ok e -> e <> [] ->
  reverb_float self = Ok (map (rescale (peak_abs e)) e).
Proof.
  unfold reverb_echoed, reverb_float.
  destruct (channels (audio self) =? 2)%Z.
  - destruct (Np.reshape2 (float_samples (audio self))) as [frames| |];
      cbn [rbind]; try discriminate.
    destruct (echo frames _ _ _) as [output| |]; cbn [rbind];
      try discriminate.
    intros He Hne. injection He as <-.
    rewrite amax_abs_peak by exact Hne. cbn [rbind]. unfold div_row.
    rewrite (flatten2_map (div_by _)), map_map. reflexivity.
  - intros -> Hne. cbn [rbind].
    rewrite amax_abs_peak by exact Hne. cbn [rbind].
    rewrite map_map. reflexivity.
Qed.

Lemma reverb_float_raise (self : LofiMaker) (x : exn) :
  reverb_echoed self = Raise x -> reverb_float self = Raise x.
Proof.
  unfold reverb_echoed, reverb_float.
  destruct (channels (audio self) =? 2)%Z.
  - destruct (Np.reshape2 (float_samples (audio self))) as [frames| |];
      cbn [rbind]; try discriminate; [|congruence].
    destruct (echo frames _ _ _) as [output| |]; cbn [rbind];
      try discriminate; congruence.
  - intros ->. reflexivity.
Qed.

Lemma reverb_data_of_echoed (self : LofiMaker) (e : list R) :
  reverb_echoed self = Ok e -> 0 < peak_abs e ->
  reverb_data self =
  Ok (map (fun x => Ztrunc (x / peak_abs e * full_scale)) e).
Proof.
  intros He Hpos. unfold reverb_data.
  rewrite (reverb_float_of_echoed self e He)
    by (intros Hn; rewrite Hn in Hpos; cbn in Hpos; lra).
  cbn [rbind]. rewrite mapM_map. apply mapM_Ok. intros x Hin.
  rewrite rescale_nonzero by lra.
  apply astype_int16_in_range, rescaled_bound;
    [exact Hpos|apply peak_abs_ge, Hin].
Qed.


Lemma reverb_echoed_zero_delay (self : LofiMaker) :
  well_formed (audio self) -> raw_samples (audio self) <> [] ->
  (1 <= reverb_repeats self)%Z -> delay_samples self = 0%Z ->
  reverb_echoed self = Raise BroadcastError.
Proof.
  intros Hwf Hne Hr HD. unfold reverb_echoed. rewrite HD.
  assert (Hfne : float_samples (audio self) <> []).
  { unfold float_samples. destruct (raw_samples (audio self));
      [congruence|discriminate]. }
  destruct (channels (audio self) =? 2)%Z eqn:Hch.
  - apply Z.eqb_eq in Hch.
    destruct (wf_stereo_even _ Hwf Hch) as [n Hn].
    rewrite <- float_samples_length in Hn.
    rewrite (reshape2_frames n) by exact Hn. cbn [rbind].
    rewrite echo_zero_delay; [reflexivity| |exact Hr].
    destruct (float_samples (audio self)) as [|x [|y a]];
      cbn in *; try congruence; lia.
  - apply echo_zero_delay; assumption.
Qed.


Lemma delay_samples_zero_ms (self : LofiMaker) :
  reverb_delay_ms self = 0%Z -> delay_samples self = 0%Z.
Proof.
  intros Hd. unfold delay_samples. rewrite Hd, Z.mul_0_r.
  replace (0 / 1000) with (IZR 0) by lra. apply Ztrunc_IZR.
Qed.



Lemma map_nth_in {A B} (f : A -> B) (l : list A) (n : nat) (a : A) (b : B) :
  (n < length l)%nat -> nth n (map f l) b = f (nth n l a).
Proof.
  intros Hn. rewrite (nth_indep _ b (f a)) by (rewrite length_map; exact Hn).
  apply map_nth.
Qed.

Lemma quiet_stereo_echo :
  reverb_echo_spec (default_maker quiet_stereo) = [100; 0].
Proof.
  pose proof (reverb_echo_spec_length (default_maker quiet_stereo)
                wf_quiet_stereo) as Hlen.
  destruct (reverb_echo_prefix_stereo (default_maker quiet_stereo) 0
              wf_quiet_stereo eq_refl) as [H0 H1].
  - rewrite delay_samples_44100_120 by reflexivity. lia.
  - cbn. lia.
  - destruct (reverb_echo_spec (default_maker quiet_stereo))
      as [|a [|b [|c l]]]; cbn in Hlen; try discriminate.
    cbn in H0, H1. rewrite H0, H1. reflexivity.
Qed.

Lemma peak_100_0 : peak_abs [100; 0] = 100.
Proof.
  cbn [peak_abs map fold_left]. rewrite Rabs_100, Rabs_R0.
  apply Rmax_left. lra.
Qed.

Lemma quiet_stereo_run :
  reverb_data (default_maker quiet_stereo) = Ok [32767; 0]%Z.
Proof.
  assert (HD : (1 <= delay_samples (default_maker quiet_stereo))%Z)
    by (rewrite delay_samples_44100_120 by reflexivity; lia).
  rewrite (reverb_data_of_echoed _ [100; 0]).
  - rewrite peak_100_0. cbn [map].
    rewrite trunc_full, trunc_zero. reflexivity.
  - rewrite reverb_echoed_refines by (apply wf_quiet_stereo || exact HD).
    rewrite quiet_stereo_echo. reflexivity.
  - rewrite peak_100_0. lra.
Qed.

(** C3 (counterexample).  One stereo frame (100, 0) at 44100 Hz under the
    scenario's parameters: the delay is 5292 frames, no echo reaches the
    frame, and yet the output frame is (32767, 0), not (100, 0).  On a
    silent frame the output is not defined at all. *)
Lemma reverb_prefix_is_rescaled :
  delay_samples (default_maker quiet_stereo) = 5292%Z /\
  reverb_data (default_maker quiet_stereo) = Ok [32767; 0]%Z /\
  ~ reverb_keeps_prefix (default_maker quiet_stereo) /\
  reverb_data (default_maker silent_stereo) = Undefined.
Proof.
  split; [apply delay_samples_44100_120; reflexivity|].
  split; [apply quiet_stereo_run|]. split.
  - intros [out [Hout Hpre]]. rewrite quiet_stereo_run in Hout.
    injection Hout as <-. specialize (Hpre 0%nat).
    rewrite delay_samples_44100_120 in Hpre by reflexivity.
    cbn in Hpre. assert (H : 32767%Z = 100%Z) by (apply Hpre; lia).
    discriminate H.
  - apply reverb_data_silent.
    + apply wf_silent_stereo.
    + discriminate.
    + rewrite delay_samples_44100_120 by reflexivity. lia.
    + repeat constructor.
Qed.



Lemma wf_short_delay : well_formed (audio short_delay_maker).
Proof.
  unfold well_formed; cbn. repeat split; try lia. repeat constructor.
Qed.





(** ** The pan loops *)

Lemma update_row_at {T} (f : T -> result T) (pre suf : list T) (x : T) :
  Np.update_row (length pre) f (pre ++ x :: suf) =
  rbind (f x) (fun y => Ok (pre ++ y :: suf)).
Proof.
  induction pre as [|p pre IH]; cbn.
  - reflexivity.
  - rewrite IH. destruct (f x); reflexivity.
Qed.

Lemma mapi_from_length {A B} (k : nat) (f : nat -> A -> B) (a : list A) :
  length (mapi_from k f a) = length a.
Proof.
  revert k; induction a as [|x a IH]; intros k; cbn; [reflexivity|].
  rewrite IH. reflexivity.
Qed.

Lemma mapi_from_nth_error {A B} (k n : nat) (f : nat -> A -> B)
    (a : list A) :
  nth_error (mapi_from k f a) n = option_map (f (k + n)%nat) (nth_error a n).
Proof.
  revert k n; induction a as [|x a IH]; intros k [|n]; cbn;
    try reflexivity.
  - rewrite Nat.add_0_r. reflexivity.
  - rewrite IH. replace (S k + n)%nat with (k + S n)%nat by lia.
    reflexivity.
Qed.


(** A loop [for i in range(n): a[i] = f(i, a[i])] over all rows of [a]. *)
Lemma foldM_update_all {T} (step : list T -> Z -> result (list T))
    (rowf : nat -> T -> result T) (g : nat -> T -> T) :
  (forall acc i, step acc (Z.of_nat i) = Np.update_row i (rowf i) acc) ->
  forall suf pre,
    (forall i row, In row suf -> rowf i row = Ok (g i row)) ->
    foldM step (map Z.of_nat (seq (length pre) (length suf))) (pre ++ suf) =
    Ok (pre ++ mapi_from (length pre) g suf).
Proof.
  intros Hstep suf. induction suf as [|x suf IH]; intros pre Hrow; cbn.
  - reflexivity.
  - rewrite Hstep, update_row_at, (Hrow _ x (or_introl eq_refl)).
    cbn [rbind].
    replace (pre ++ g (length pre) x :: suf)
      with ((pre ++ [g (length pre) x]) ++ suf)
      by (rewrite <- app_assoc; reflexivity).
    replace (S (length pre)) with (length (pre ++ [g (length pre) x]))
      by (rewrite length_app; cbn; lia).
    rewrite IH by (intros i row Hin; apply Hrow; right; exact Hin).
    rewrite <- app_assoc. reflexivity.
Qed.

Lemma range_all {T} (a : list T) :
  range 0 (Np.len a) = map Z.of_nat (seq 0 (length a)).
Proof.
  unfold Np.len, range. rewrite Z.sub_0_r, Nat2Z.id. reflexivity.
Qed.

Lemma pan_phase_ok (sample_rate : Z) (cycle : R) (i : nat) :
  sample_rate <> 0%Z -> cycle <> 0 ->
  pan_phase sample_rate cycle (Z.of_nat i) =
  Ok (sin (2 * PI * pan_time sample_rate cycle i / cycle)).
Proof.
  intros Hr Hc. unfold pan_phase, py_div, py_mod, pan_time.
  destruct (Req_dec_T (IZR sample_rate) 0) as [H0|_].
  - exfalso. apply Hr, eq_IZR. exact H0.
  - cbn [rbind]. destruct (Req_dec_T cycle 0) as [H0|_]; [contradiction|].
    cbn [rbind]. rewrite <- INR_IZR_INZ. reflexivity.
Qed.

(** Surround's loop multiplies frame [i] by the gains of [pan_value]. *)
Lemma surround_panned_spec (self : LofiMaker) :
  well_formed (audio self) -> channels (audio self) = 2%Z ->
  surround_cycle_duration self <> 0 ->
  surround_panned self =
  Ok (panned_spec (frame_rate (audio self)) (surround_cycle_duration self)
        (surround_depth self) (frames_of (float_samples (audio self)))).
Proof.
  intros Hwf Hch Hc.
  destruct (wf_stereo_even _ Hwf Hch) as [n Hn].
  assert (Hr : frame_rate (audio self) <> 0%Z)
    by (destruct Hwf as (_ & _ & _ & Hpos); lia).
  unfold surround_panned.
  rewrite (reshape2_frames n) by (rewrite float_samples_length; exact Hn).
  cbn [rbind]. rewrite range_all.
  apply (foldM_update_all (surround_step self)
           (fun i row =>
              Ok (pan_frame
                    (pan_value (frame_rate (audio self))
                       (surround_cycle_duration self) (surround_depth self)
                       i) row))
           (fun i =>
              pan_frame
                (pan_value (frame_rate (audio self))
                   (surround_cycle_duration self) (surround_depth self) i))
           ltac:(intros acc i; unfold surround_step;
                 rewrite pan_phase_ok by assumption;
                 cbn [rbind]; rewrite Nat2Z.id; reflexivity)
           _ []).
  reflexivity.
Qed.
Lemma gains_at_neutral (p : R) :
  p = 0 -> left_gain p = 1 / 2 /\ right_gain p = 1 / 2.
Proof. intros ->. unfold left_gain, right_gain. split; lra. Qed.

Lemma pan_value_frame_0 (sample_rate : Z) (cycle depth : R) :
  pan_value sample_rate cycle depth 0 = 0.
Proof.
  unfold pan_value, pan_time. cbn [INR].
  replace (0 / IZR sample_rate / cycle) with (IZR 0)
    by (unfold Rdiv; ring).
  rewrite ZfloorZ.
  replace (2 * PI * (0 / IZR sample_rate - cycle * 0) / cycle) with 0
    by (unfold Rdiv; ring).
  rewrite sin_0. ring.
Qed.

Lemma surround_float_of_panned (self : LofiMaker) (p : list (R * R)) :
  surround_panned self = Ok p -> p <> [] ->
  surround_float self =
  Ok (map (rescale (peak_abs (Np.flatten2 p))) (Np.flatten2 p)).
Proof.
  intros Hp Hne. unfold surround_float. rewrite Hp. cbn [rbind].
  rewrite amax_abs_peak.
  - cbn [rbind]. unfold scale_row.
    rewrite <- (flatten2_map (rescale _)). reflexivity.
  - destruct p; [congruence|discriminate].
Qed.

Lemma wf_loud_stereo : well_formed loud_stereo.
Proof.
  unfold well_formed; cbn. repeat split; try lia. repeat constructor.
Qed.

(** ** The gains of the pans *)

(** [x - c * floor(x / c)] is the remainder of [x] modulo [c]. *)
Lemma floor_remainder (x c : R) :
  c <> 0 ->
  let t := x - c * IZR (Zfloor (x / c)) in
  x = IZR (Zfloor (x / c)) * c + t /\ 0 <= t / c < 1.
Proof.
  intros Hc t. split; [unfold t; ring|].
  pose proof (Zfloor_bound (x / c)) as [Hlo Hhi].
  replace (t / c) with (x / c - IZR (Zfloor (x / c)))
    by (unfold t; field; exact Hc).
  lra.
Qed.

Lemma wf_two_frames : well_formed two_frames.
Proof.
  unfold well_formed; cbn. repeat split; try lia. repeat constructor.
Qed.

(** At 100 Hz frame 1 is a quarter of a cycle of 0.04 s. *)
Lemma quarter_cycle_sin (c : R) :
  c = 4 / 100 ->
  sin (2 * PI * (INR 1 / IZR 100 - c * IZR (Zfloor (INR 1 / IZR 100 / c)))
       / c) = 1.
Proof.
  intros ->. cbn [INR].
  replace (Zfloor (1 / 100 / (4 / 100))) with 0%Z
    by (symmetry; apply Zfloor_eq; lra).
  replace (2 * PI * (1 / 100 - 4 / 100 * 0) / (4 / 100)) with (PI / 2)
    by field.
  apply sin_PI2.
Qed.

(** C7.  On every stereo buffer, with a cycle duration other than 0,
    the loop of Surround replaces frame [i], (l, r), by
    (l * ((1 + pan) / 2), r * ((1 - pan) / 2)), where
    [pan = sin(2 pi t / cycle) * depth] and [t] is [i / sample_rate]
    modulo the cycle, in exact arithmetic.  Where the pan is 0 both gains
    are 1/2 and the frame becomes (l / 2, r / 2).  The panned frames are
    then divided by their peak and multiplied by 32767. *)
Theorem surround_scales_by_gains (self : LofiMaker) :
  well_formed (audio self) -> channels (audio self) = 2%Z ->
  surround_cycle_duration self <> 0 ->
  let frames := frames_of (float_samples (audio self)) in
  let rate := IZR (frame_rate (audio self)) in
  let cycle := surround_cycle_duration self in
  let depth := surround_depth self in
  let time := fun i : nat =>
    INR i / rate - cycle * IZR (Zfloor (INR i / rate / cycle)) in
  let pan := fun i : nat => sin (2 * PI * time i / cycle) * depth in
  exists panned,
    surround_panned self = Ok panned /\
    length panned = length frames /\
    (forall i, exists q : Z,
        INR i / rate = IZR q * cycle + time i /\ 0 <= time i / cycle < 1) /\
    (forall i l r, nth_error frames i = Some (l, r) ->
       nth_error panned i
       = Some (l * ((1 + pan i) / 2), r * ((1 - pan i) / 2))) /\
    (forall i l r, nth_error frames i = Some (l, r) -> pan i = 0 ->
       nth_error panned i = Some (l * (1 / 2), r * (1 / 2))) /\
    (left_gain 0 = 1 / 2 /\ right_gain 0 = 1 / 2) /\
    (frames <> [] ->
     surround_float self =
     Ok (map (fun y => mul (div (Fin y)
                              (Fin (peak_abs (Np.flatten2 panned))))
                         (Fin 32767))
           (Np.flatten2 panned))).
Proof.
  intros Hwf Hch Hc frames rate cycle depth time pan.
  pose proof (surround_panned_spec self Hwf Hch Hc) as Hp.
  assert (Hnth : forall i l r, nth_error frames i = Some (l, r) ->
            nth_error
              (panned_spec (frame_rate (audio self)) cycle depth frames) i
            = Some (l * ((1 + pan i) / 2), r * ((1 - pan i) / 2))).
  { intros i l r Hi. unfold panned_spec.
    rewrite mapi_from_nth_error, Hi. reflexivity. }
  exists (panned_spec (frame_rate (audio self)) cycle depth frames).
  split; [exact Hp|].
  split; [apply mapi_from_length|]. split; [|split; [|split; [|split]]].
  - intros i. exists (Zfloor (INR i / rate / cycle)).
    apply (floor_remainder (INR i / rate) cycle Hc).
  - exact Hnth.
  - intros i l r Hi Hpan. rewrite (Hnth i l r Hi), Hpan.
    do 2 f_equal; lra.
  - apply gains_at_neutral. reflexivity.
  - intros Hne. apply surround_float_of_panned.
    + exact Hp.
    + intros He. apply Hne. apply (f_equal (@length _)) in He.
      unfold panned_spec in He. rewrite mapi_from_length in He.
      destruct frames; [reflexivity|discriminate].
Qed.

Lemma surround_scales_by_gains_witness :
  exists panned,
    surround_panned quarter_cycle_surround = Ok panned /\
    nth_error panned 0 = Some (1000 * (1 / 2), -500 * (1 / 2)) /\
    nth_error panned 1 = Some (600 * (17 / 20), 400 * (3 / 20)).
Proof.
  destruct (surround_scales_by_gains quarter_cycle_surround)
    as [panned (Hp & _ & _ & Hnth & Hneutral & _)].
  - apply wf_two_frames.
  - reflexivity.
  - cbn. lra.
  - exists panned. split; [exact Hp|]. split.
    + apply (Hneutral 0%nat 1000 (-500) eq_refl).
      cbn [INR audio quarter_cycle_surround frame_rate two_frames
           surround_cycle_duration surround_depth].
      replace (0 / 100 / (4 / 100)) with (IZR 0) by (unfold Rdiv; ring).
      rewrite ZfloorZ.
      replace (2 * PI * (0 / 100 - 4 / 100 * 0) / (4 / 100)) with 0
        by (unfold Rdiv; ring).
      rewrite sin_0. ring.
    + rewrite (Hnth 1%nat 600 400 eq_refl).
      cbn [audio quarter_cycle_surround frame_rate two_frames
           surround_cycle_duration surround_depth].
      rewrite (quarter_cycle_sin (4 / 100) eq_refl). do 2 f_equal; lra.
Defined.

(** ** The N-D effect *)

Lemma mapi_from_ext {A B} (k : nat) (f g : nat -> A -> B) (a : list A) :
  (forall i x, In x a -> f i x = g i x) -> mapi_from k f a = mapi_from k g a.
Proof.
  revert k; induction a as [|x a IH]; intros k Hfg; cbn; [reflexivity|].
  rewrite (Hfg k x (or_introl eq_refl)). f_equal.
  apply IH. intros i y Hy. apply Hfg. right. exact Hy.
Qed.

Lemma mapi_from_map {A B C} (k : nat) (f : nat -> B -> C) (h : A -> B)
    (a : list A) :
  mapi_from k f (map h a) = mapi_from k (fun i x => f i (h x)) a.
Proof.
  revert k; induction a as [|x a IH]; intros k; cbn; [reflexivity|].
  rewrite IH. reflexivity.
Qed.

Lemma map_mapi_from {A B C} (k : nat) (h : B -> C) (f : nat -> A -> B)
    (a : list A) :
  map h (mapi_from k f a) = mapi_from k (fun i x => h (f i x)) a.
Proof.
  revert k; induction a as [|x a IH]; intros k; cbn; [reflexivity|].
  rewrite IH. reflexivity.
Qed.

Lemma frames_of_map {A B} (h : A -> B) (a : list A) :
  frames_of (map h a) = map (fun row => (h (fst row), h (snd row)))
                            (frames_of a).
Proof.
  revert a. fix IH 1. intros [|x [|y a]]; cbn; try reflexivity.
  f_equal. apply IH.
Qed.

Lemma gains_in_unit (s : R) :
  -1 <= s <= 1 ->
  0 <= left_gain s <= 1 /\ 0 <= right_gain s <= 1.
Proof. intros Hs. unfold left_gain, right_gain. lra. Qed.

(** A 16-bit sample times a gain in [0, 1], truncated, is a 16-bit
    sample: the store never overflows. *)
Lemma store_scaled_sample (s : Z) (g : R) :
  in_int16 s = true -> 0 <= g <= 1 ->
  store_int16 (Ztrunc (IZR s * g)) = Ok (Ztrunc (IZR s * g)).
Proof.
  intros Hs Hg. unfold store_int16.
  unfold in_int16, int16_min, int16_max in *.
  apply andb_prop in Hs. destruct Hs as [Hlo Hhi].
  apply Z.leb_le in Hlo, Hhi. apply IZR_le in Hlo, Hhi.
  assert (Hb : (-32768 <= Ztrunc (IZR s * g) <= 32767)%Z).
  { apply Ztrunc_between; [lia|]. nra. }
  destruct Hb as [Hl Hh]. apply Z.leb_le in Hl, Hh.
  rewrite Hl, Hh. reflexivity.
Qed.

(** The N-D loop: the pan of Surround's loop at depth 1 on the cycle
    [nd_cycle_duration], each product truncated, nothing else. *)
Lemma nd_data_spec (self : LofiMaker) :
  well_formed (audio self) -> channels (audio self) = 2%Z ->
  nd_cycle_duration self <> 0 ->
  nd_data self =
  Ok (Np.flatten2
        (map trunc_frame
           (panned_spec (frame_rate (audio self)) (nd_cycle_duration self) 1
              (frames_of (float_samples (audio self)))))).
Proof.
  intros Hwf Hch Hc.
  destruct (wf_stereo_even _ Hwf Hch) as [n Hn].
  assert (Hr : frame_rate (audio self) <> 0%Z)
    by (destruct Hwf as (_ & _ & _ & Hpos); lia).
  assert (Hrange : Forall (fun row => in_int16 (fst row) = true /\
                                      in_int16 (snd row) = true)
                          (frames_of (raw_samples (audio self)))).
  { apply (frames_of_Forall (fun s => in_int16 s = true)).
    destruct Hwf as (_ & _ & Hall & _). exact Hall. }
  unfold nd_data. rewrite (reshape2_frames n) by exact Hn.
  cbn [rbind]. rewrite range_all.
  set (phase := fun i =>
         sin (2 * PI * pan_time (frame_rate (audio self))
                         (nd_cycle_duration self) i
              / nd_cycle_duration self)).
  pose proof (foldM_update_all (nd_step self)
             (fun i row =>
                rbind (store_int16 (Ztrunc (IZR (fst row) * left_gain (phase i))))
                  (fun l =>
                     rbind (store_int16
                              (Ztrunc (IZR (snd row) * right_gain (phase i))))
                       (fun r => Ok (l, r))))
             (fun i row =>
                (Ztrunc (IZR (fst row) * left_gain (phase i)),
                 Ztrunc (IZR (snd row) * right_gain (phase i))))
             ltac:(intros acc i; unfold nd_step;
                   rewrite pan_phase_ok by assumption;
                   cbn [rbind]; rewrite Nat2Z.id; reflexivity)
             (frames_of (raw_samples (audio self))) []) as Hloop.
  cbn [app length] in Hloop. rewrite Hloop.
  - cbn [rbind]. do 2 f_equal.
    unfold panned_spec, float_samples.
    rewrite frames_of_map, mapi_from_map, map_mapi_from.
    apply mapi_from_ext. intros i row _.
    unfold trunc_frame, pan_frame, pan_value. cbn [fst snd].
    fold (phase i). rewrite Rmult_1_r. reflexivity.
  - intros i row Hin.
    destruct (proj1 (Forall_forall _ _) Hrange row Hin) as [Hl Hrr].
    destruct (gains_in_unit (phase i) (SIN_bound _)) as [Hgl Hgr].
    rewrite (store_scaled_sample _ _ Hl Hgl). cbn [rbind].
    rewrite (store_scaled_sample _ _ Hrr Hgr). reflexivity.
Qed.

Lemma nd_audio_run (self : LofiMaker) :
  channels (audio self) = 2%Z ->
  apply_nd_audio_effect self =
  match nd_data self with
  | Ok data => (Ok (spawn (audio self) data),
                set_audio self (spawn (audio self) data))
  | Raise e => (Raise e, self)
  | Undefined => (Undefined, self)
  end.
Proof.
  intros Hch.
  unfold apply_nd_audio_effect, bind, get, lift, assign_audio, read_audio.
  rewrite (proj2 (Z.eqb_eq _ _) Hch). cbn [negb].
  destruct (nd_data self); reflexivity.
Qed.


(** ** Rescaling to full scale *)


Lemma rescale_all_zero (l : list R) :
  Forall (fun x => x = 0) l ->
  map (rescale (peak_abs l)) l = repeat NaN (length l).
Proof.
  intros Hz. rewrite peak_abs_zero by (apply Forall_forall; exact Hz).
  induction Hz as [|x l Hx _ IH]; cbn; [reflexivity|].
  rewrite Hx, rescale_zero_by_zero, IH. reflexivity.
Qed.


(** With a depth below 1 in absolute value no gain vanishes. *)
Lemma gains_positive (s depth : R) :
  -1 <= s <= 1 -> Rabs depth < 1 ->
  0 < left_gain (s * depth) /\ 0 < right_gain (s * depth).
Proof.
  intros Hs Hd. unfold left_gain, right_gain.
  assert (Hp : Rabs (s * depth) < 1).
  { rewrite Rabs_mult. pose proof (Rabs_pos depth).
    assert (Rabs s <= 1) by (apply Rabs_le; lra). nra. }
  apply Rabs_def2 in Hp. lra.
Qed.

Lemma surround_panned_non_silent (self : LofiMaker) :
  well_formed (audio self) -> channels (audio self) = 2%Z ->
  Rabs (surround_depth self) < 1 -> non_silent (audio self) ->
  exists x,
    In x (Np.flatten2
            (panned_spec (frame_rate (audio self))
               (surround_cycle_duration self) (surround_depth self)
               (frames_of (float_samples (audio self))))) /\
    x <> 0.
Proof.
  intros Hwf Hch Hd [s [Hin Hs]].
  destruct (wf_stereo_even _ Hwf Hch) as [n Hn].
  assert (Hsf : In (IZR s) (Np.flatten2
                              (frames_of (float_samples (audio self))))).
  { rewrite (flatten2_frames n) by (rewrite float_samples_length; exact Hn).
    apply in_map, Hin. }
  apply flatten2_In in Hsf. destruct Hsf as [row [Hrow Hcomp]].
  apply In_nth_error in Hrow. destruct Hrow as [i Hi].
  set (p := pan_value (frame_rate (audio self))
              (surround_cycle_duration self) (surround_depth self) i).
  assert (Hpanned : In (pan_frame p row)
            (panned_spec (frame_rate (audio self))
               (surround_cycle_duration self) (surround_depth self)
               (frames_of (float_samples (audio self))))).
  { apply (nth_error_In _ i). unfold panned_spec.
    rewrite mapi_from_nth_error, Hi. reflexivity. }
  assert (Hg : 0 < left_gain p /\ 0 < right_gain p).
  { unfold p, pan_value. apply gains_positive; [apply SIN_bound|exact Hd]. }
  destruct Hg as [Hgl Hgr].
  assert (Hs0 : IZR s <> 0) by (intros H0; apply Hs, eq_IZR; exact H0).
  destruct Hcomp as [Hc|Hc].
  - exists (fst row * left_gain p). split.
    + apply flatten2_In. exists (pan_frame p row). split; [exact Hpanned|].
      left. reflexivity.
    + rewrite <- Hc. nra.
  - exists (snd row * right_gain p). split.
    + apply flatten2_In. exists (pan_frame p row). split; [exact Hpanned|].
      right. reflexivity.
    + rewrite <- Hc. nra.
Qed.










(** ** Decibels *)

Lemma ln10_ge_2 : 2 <= ln 10.
Proof.
  assert (He : exp 2 < 10).
  { replace 2 with (1 + 1) by lra. rewrite exp_plus.
    pose proof exp_le_3. pose proof (exp_pos 1). nra. }
  left. rewrite <- (ln_exp 2). apply ln_increasing; [apply exp_pos|exact He].
Qed.

Lemma exp_le_mono (x y : R) : x <= y -> exp x <= exp y.
Proof.
  intros [Hlt|Heq]; [left; apply exp_increasing, Hlt|].
  rewrite Heq. right. reflexivity.
Qed.

Lemma ln_upper (u : R) : 0 < u -> ln u <= u - 1.
Proof.
  intros Hu. pose proof (exp_ineq1_le (ln u)) as H.
  rewrite exp_ln in H by exact Hu. lra.
Qed.

Lemma ln_lower (u : R) : 0 < u -> 1 - / u <= ln u.
Proof.
  intros Hu. pose proof (ln_upper (/ u) (Rinv_0_lt_compat u Hu)) as H.
  rewrite ln_Rinv in H by exact Hu. lra.
Qed.

(** The gain that brings a peak ratio [r] to [t] dB. *)
Lemma gain_to_target (t r : R) :
  0 < r -> Rpower 10 ((t - 20 * (ln r / ln 10)) / 20) = Rpower 10 (t / 20) / r.
Proof.
  intros Hr. pose proof ln10_ge_2. unfold Rpower.
  replace ((t - 20 * (ln r / ln 10)) / 20 * ln 10)
    with (t / 20 * ln 10 + - ln r) by (field; lra).
  rewrite exp_plus, exp_Ropp, exp_ln by exact Hr. reflexivity.
Qed.

(** The linear gain of -1 dB. *)
Lemma minus_1_dB_bounds :
  1 / 10 <= Rpower 10 (-1 / 20) <= 10 / 11.
Proof.
  pose proof ln10_ge_2 as Hl. unfold Rpower. split.
  - replace (1 / 10) with (exp (- ln 10))
      by (rewrite exp_Ropp, exp_ln by lra; lra).
    apply exp_le_mono. lra.
  - apply Rle_trans with (exp (- (1 / 10))).
    + apply exp_le_mono. lra.
    + rewrite exp_Ropp. pose proof (exp_ineq1_le (1 / 10)) as He.
      replace (10 / 11) with (/ (1 + 1 / 10)) by lra.
      apply Rinv_le_contravar; lra.
Qed.

(** A peak within one unit of [K * fs], where [K] is -1 dB as a ratio and
    [fs] a 16-bit full scale, is within 0.1 dB of -1 dBFS. *)
Lemma near_target_dB (fs q : R) :
  32767 <= fs <= 32768 ->
  Rabs (q - Rpower 10 (-1 / 20) * fs) < 1 ->
  Rabs (20 * (ln (q / fs) / ln 10) - -1) <= 1 / 10.
Proof.
  intros Hfs Hq. pose proof ln10_ge_2 as Hl.
  pose proof minus_1_dB_bounds as [HK1 HK2].
  set (K := Rpower 10 (-1 / 20)) in *.
  apply Rabs_def2 in Hq. destruct Hq as [Hq1 Hq2].
  assert (HKfs : 3276 < K * fs) by nra.
  assert (Hqpos : 0 < q) by lra.
  set (u := q / (K * fs)).
  assert (Hu : q / fs = u * K) by (unfold u; field; lra).
  assert (Hu1 : u - 1 < 1 / 3276).
  { unfold u. apply Rmult_lt_reg_r with (K * fs); [lra|].
    replace ((q / (K * fs) - 1) * (K * fs)) with (q - K * fs)
      by (field; lra). lra. }
  assert (Hu2 : 1 - 1 / 3276 < u).
  { unfold u. apply Rmult_lt_reg_r with (K * fs); [lra|].
    replace (q / (K * fs) * (K * fs)) with q by (field; lra). nra. }
  assert (Hupos : 0 < u) by lra.
  assert (HlnK : ln K = -1 / 20 * ln 10) by (unfold K; apply ln_Rpower).
  rewrite Hu, ln_mult, HlnK by lra.
  pose proof (ln_upper u Hupos) as Hup.
  pose proof (ln_lower u Hupos) as Hlo.
  assert (Hinv : / u < 1 + 1 / 3000).
  { apply Rmult_lt_reg_r with u; [exact Hupos|].
    rewrite Rinv_l by lra. nra. }
  replace (20 * ((ln u + -1 / 20 * ln 10) / ln 10) - -1)
    with (20 * ln u / ln 10) by (field; lra).
  apply Rabs_le. split.
  - apply Rmult_le_reg_r with (ln 10); [lra|].
    replace (20 * ln u / ln 10 * ln 10) with (20 * ln u) by (field; lra).
    nra.
  - apply Rmult_le_reg_r with (ln 10); [lra|].
    replace (20 * ln u / ln 10 * ln 10) with (20 * ln u) by (field; lra).
    nra.
Qed.

(** ** Normalize *)

Lemma fold_left_Zmax_ge_acc (l : list Z) (a : Z) :
  (a <= fold_left Z.max l a)%Z.
Proof.
  revert a; induction l as [|x l IH]; intros a; cbn; [lia|].
  specialize (IH (Z.max a x)). lia.
Qed.

Lemma fold_left_Zmax_ge_In (l : list Z) (a x : Z) :
  In x l -> (x <= fold_left Z.max l a)%Z.
Proof.
  revert a; induction l as [|y l IH]; intros a Hin; [destruct Hin|].
  destruct Hin as [Hx|Hx]; cbn.
  - subst y. pose proof (fold_left_Zmax_ge_acc l (Z.max a x)). lia.
  - apply IH, Hx.
Qed.

Lemma fold_left_Zmax_attained (l : list Z) (a : Z) :
  fold_left Z.max l a = a \/ In (fold_left Z.max l a) l.
Proof.
  revert a; induction l as [|y l IH]; intros a; cbn; [left; reflexivity|].
  destruct (IH (Z.max a y)) as [He|Hin].
  - rewrite He. destruct (Z.max_spec a y) as [[_ ->]|[_ ->]]; auto.
  - right; right; exact Hin.
Qed.

Lemma max_amplitude_ge (seg : AudioSegment) (s : Z) :
  In s (raw_samples seg) -> (Z.abs s <= max_amplitude seg)%Z.
Proof.
  intros Hin. unfold max_amplitude.
  apply fold_left_Zmax_ge_In, in_map, Hin.
Qed.

Lemma max_amplitude_attained (seg : AudioSegment) :
  max_amplitude seg = 0%Z \/
  exists s, In s (raw_samples seg) /\ Z.abs s = max_amplitude seg.
Proof.
  unfold max_amplitude.
  destruct (fold_left_Zmax_attained (map Z.abs (raw_samples seg)) 0)
    as [He|Hin]; [left; exact He|right].
  apply in_map_iff in Hin. destruct Hin as [s [Hs Hin]].
  exists s. split; [exact Hin|exact Hs].
Qed.

Lemma max_amplitude_pos (seg : AudioSegment) :
  non_silent seg -> (0 < max_amplitude seg)%Z.
Proof.
  intros [s [Hin Hs]]. pose proof (max_amplitude_ge seg s Hin). lia.
Qed.

Lemma bind_when_off {B} (flag : LofiMaker -> bool) (m : M AudioSegment)
    (k : AudioSegment -> M B) (self : LofiMaker) :
  flag self = false -> bind (when flag m) k self = k (audio self) self.
Proof.
  intros Hf. unfold when, bind, get, read_audio. rewrite Hf. reflexivity.
Qed.

Lemma process_bare set_frame_rate quantize mpa (self : LofiMaker) :
  slow_down self = false -> reverb self = false ->
  surround self = false -> dimension self = false ->
  process set_frame_rate quantize mpa self =
  normalize_audio quantize mpa self.
Proof.
  intros H1 H2 H3 H4. unfold process.
  rewrite (bind_when_off slow_down) by exact H1.
  rewrite (bind_when_off reverb) by exact H2.
  rewrite (bind_when_off surround) by exact H3.
  rewrite (bind_when_off dimension) by exact H4.
  reflexivity.
Qed.

(** What is assumed of the library: a scaled sample that fits 16 bits is
    stored within one unit of its value (floor, truncation and rounding to
    nearest all do), and full scale is 32767 or 32768 or in between. *)
Section Normalize.
Variable quantize : R -> Z.
Variable mpa : R.
Hypothesis quantize_close :
  forall x, Rabs x <= 32767 -> Rabs (IZR (quantize x) - x) < 1.
Hypothesis full_scale_16bit : 32767 <= mpa <= 32768.

Lemma max_dBFS_non_silent (seg : AudioSegment) :
  non_silent seg ->
  max_dBFS mpa seg = Fin (20 * (ln (IZR (max_amplitude seg) / mpa) / ln 10)).
Proof.
  intros Hns. pose proof (max_amplitude_pos seg Hns) as Hp.
  apply IZR_lt in Hp. unfold max_dBFS.
  destruct (Req_dec_T (IZR (max_amplitude seg) / mpa) 0) as [H0|_];
    [|reflexivity].
  exfalso. assert (0 < IZR (max_amplitude seg) / mpa)
    by (apply Rdiv_lt_0_compat; lra). lra.
Qed.

Lemma apply_gain_finite (seg : AudioSegment) (db : R) :
  apply_gain quantize seg (Fin db) =
  Ok (spawn seg
        (map (fun s => quantize (IZR s * Rpower 10 (db / 20)))
           (raw_samples seg))).
Proof.
  unfold apply_gain, db_to_float.
  rewrite (mapM_Ok _ (fun s => quantize (IZR s * Rpower 10 (db / 20))));
    reflexivity.
Qed.

Lemma normalize_run (self : LofiMaker) :
  non_silent (audio self) ->
  let peak_dB :=
    20 * (ln (IZR (max_amplitude (audio self)) / mpa) / ln 10) in
  let gain := Rpower 10 ((target_dBFS self - peak_dB) / 20) in
  let seg := spawn (audio self)
               (map (fun s => quantize (IZR s * gain))
                  (raw_samples (audio self))) in
  normalize_audio quantize mpa self = (Ok seg, set_audio self seg).
Proof.
  intros Hns peak_dB gain seg.
  unfold normalize_audio, bind, get, lift, assign_audio, read_audio.
  rewrite max_dBFS_non_silent by exact Hns. cbn [sub].
  rewrite apply_gain_finite. reflexivity.
Qed.

(** After a gain that brings the peak to -1 dB of full scale, the stored
    peak is within one unit of it. *)
Lemma normalized_peak_near (seg : AudioSegment) :
  non_silent seg ->
  let gain :=
    Rpower 10 ((-1 - 20 * (ln (IZR (max_amplitude seg) / mpa) / ln 10)) / 20)
  in
  let out := spawn seg (map (fun s => quantize (IZR s * gain))
                          (raw_samples seg)) in
  Rabs (IZR (max_amplitude out) - Rpower 10 (-1 / 20) * mpa) < 1.
Proof.
  intros Hns gain out.
  pose proof (max_amplitude_pos seg Hns) as Hp. apply IZR_lt in Hp.
  pose proof minus_1_dB_bounds as [HK1 HK2].
  set (K := Rpower 10 (-1 / 20)) in *.
  set (P := IZR (max_amplitude seg)) in *.
  assert (Hgain : gain = K * mpa / P).
  { unfold gain. fold P. rewrite gain_to_target
      by (apply Rdiv_lt_0_compat; lra).
    fold K. field. lra. }
  assert (Hgpos : 0 < gain).
  { rewrite Hgain. apply Rdiv_lt_0_compat; nra. }
  assert (HPg : P * gain = K * mpa) by (rewrite Hgain; field; lra).
  assert (Hscaled : forall s, In s (raw_samples seg) ->
            Rabs (IZR s * gain) <= K * mpa).
  { intros s Hin. pose proof (max_amplitude_ge seg s Hin) as Hle.
    apply IZR_le in Hle. rewrite abs_IZR in Hle. fold P in Hle.
    rewrite Rabs_mult, (Rabs_right gain) by lra. nra. }
  assert (Hclose : forall s, In s (raw_samples seg) ->
            Rabs (IZR (quantize (IZR s * gain)) - IZR s * gain) < 1).
  { intros s Hin. apply quantize_close.
    pose proof (Hscaled s Hin). nra. }
  apply Rabs_def1.
  - destruct (max_amplitude_attained out) as [H0|[o [Hin Ho]]].
    + rewrite H0. nra.
    + rewrite <- Ho, abs_IZR. unfold out in Hin. cbn [raw_samples spawn] in Hin.
      apply in_map_iff in Hin. destruct Hin as [s [<- Hin]].
      pose proof (Hclose s Hin) as Hc. pose proof (Hscaled s Hin) as Hs.
      apply Rabs_def2 in Hc.
      unfold Rabs in *. repeat destruct (Rcase_abs _); lra.
  - destruct (max_amplitude_attained seg) as [H0|[s [Hin Hs]]].
    + unfold P in Hp. rewrite H0 in Hp. lra.
    + assert (Hout : In (quantize (IZR s * gain)) (raw_samples out))
        by (unfold out; cbn [raw_samples spawn];
            apply (in_map (fun s => quantize (IZR s * gain))), Hin).
      pose proof (max_amplitude_ge out _ Hout) as Hge.
      apply IZR_le in Hge. rewrite abs_IZR in Hge.
      pose proof (Hclose s Hin) as Hc. apply Rabs_def2 in Hc.
      assert (Habs : Rabs (IZR s * gain) = K * mpa).
      { rewrite Rabs_mult, (Rabs_right gain), <- abs_IZR, Hs by lra.
        exact HPg. }
      unfold Rabs in *. repeat destruct (Rcase_abs _); lra.
Qed.

(** C9.  On every buffer that is not silent, Normalize measures the peak
    level [20 log10 (max |s| / full scale)] in dBFS, takes
    [gainDelta = target - peak level] and multiplies every sample by
    [10 ^ (gainDelta / 20)].  With every other effect off, a target of
    -1.0 dBFS and a mono buffer at 44100 Hz, the output of [process] has
    the input's sample count and sample rate and a peak level within
    0.1 dB of -1.0 dBFS.  (For every storing of scaled samples that stays
    within one unit, and a full scale between 32767 and 32768.) *)
Theorem normalize_to_target set_frame_rate (self : LofiMaker) :
  non_silent (audio self) ->
  let raw := raw_samples (audio self) in
  let peak_dB :=
    20 * (ln (IZR (max_amplitude (audio self)) / mpa) / ln 10) in
  let gainDelta := target_dBFS self - peak_dB in
  let seg := spawn (audio self)
               (map (fun s => quantize (IZR s * Rpower 10 (gainDelta / 20)))
                  raw) in
  max_dBFS mpa (audio self) = Fin peak_dB /\
  normalize_audio quantize mpa self = (Ok seg, set_audio self seg) /\
  (slow_down self = false -> reverb self = false ->
   surround self = false -> dimension self = false ->
   channels (audio self) = 1%Z -> frame_rate (audio self) = 44100%Z ->
   target_dBFS self = -1 ->
   process set_frame_rate quantize mpa self = (Ok seg, set_audio self seg) /\
   length (raw_samples seg) = length raw /\
   frame_rate seg = 44100%Z /\
   exists level, max_dBFS mpa seg = Fin level /\
                 Rabs (level - -1) <= 1 / 10).
Proof.
  intros Hns raw peak_dB gainDelta seg.
  split; [apply max_dBFS_non_silent, Hns|].
  split; [apply normalize_run, Hns|].
  intros H1 H2 H3 H4 _ Hrate Ht.
  split; [rewrite process_bare by assumption; apply normalize_run, Hns|].
  split; [unfold seg; cbn [raw_samples spawn]; apply length_map|].
  split; [exact Hrate|].
  pose proof (normalized_peak_near (audio self) Hns) as Hnear.
  cbn zeta in Hnear. subst seg gainDelta peak_dB raw. rewrite Ht.
  set (out := spawn (audio self) _) in *.
  pose proof minus_1_dB_bounds as [HK1 HK2].
  assert (Hq : 0 < IZR (max_amplitude out)).
  { apply Rabs_def2 in Hnear. nra. }
  exists (20 * (ln (IZR (max_amplitude out) / mpa) / ln 10)). split.
  - unfold max_dBFS.
    destruct (Req_dec_T (IZR (max_amplitude out) / mpa) 0) as [H0|_];
      [|reflexivity].
    exfalso. assert (0 < IZR (max_amplitude out) / mpa)
      by (apply Rdiv_lt_0_compat; lra). lra.
  - apply near_target_dB; assumption.
Qed.

End Normalize.


Lemma Zfloor_close (x : R) : Rabs (IZR (Zfloor x) - x) < 1.
Proof.
  pose proof (Zfloor_bound x) as [Hlo Hhi]. apply Rabs_def1; lra.
Qed.

Lemma normalize_to_target_witness :
  exists seg level,
    process (fun seg _ => Ok seg) Zfloor 32768 (bare_maker quiet_mono)
      = (Ok seg, set_audio (bare_maker quiet_mono) seg) /\
    length (raw_samples seg) = 1%nat /\
    frame_rate seg = 44100%Z /\
    max_dBFS 32768 seg = Fin level /\
    Rabs (level - -1) <= 1 / 10.
Proof.
  assert (Hns : non_silent (audio (bare_maker quiet_mono))).
  { exists 100%Z. split; [left; reflexivity|discriminate]. }
  destruct (normalize_to_target Zfloor 32768
              (fun x _ => Zfloor_close x) ltac:(lra)
              (fun seg _ => Ok seg) (bare_maker quiet_mono) Hns)
    as (_ & _ & Hscenario).
  destruct Hscenario as (Hrun & Hlen & Hrate & level & Hlevel & Hnear);
    try reflexivity.
  eexists. exists level. split; [exact Hrun|].
  split; [exact Hlen|]. split; [exact Hrate|].
  split; [exact Hlevel|exact Hnear].
Defined.

(** ** Silence *)



(** ** The orchestrator *)

Section Orchestrator.

Variable set_frame_rate : AudioSegment -> Z -> result AudioSegment.
Variable quantize : R -> Z.
Variable max_possible_amplitude : R.


Lemma same_config_refl a : same_config a a.
Proof. destruct a; reflexivity. Qed.

Lemma same_config_set a seg : same_config a (set_audio a seg).
Proof. destruct a; reflexivity. Qed.

Lemma same_config_trans a b c :
  same_config a b -> same_config b c -> same_config a c.
Proof.
  unfold same_config; intros Hab Hbc.
  rewrite Hbc, Hab; destruct a; reflexivity.
Qed.

Lemma same_config_enabled a b s :
  same_config a b -> enabled b s = enabled a s.
Proof.
  unfold same_config; intros ->; destruct a, s; reflexivity.
Qed.

(** A method of the shape "compute the new data from [self], then
    [self.audio = ...]" touches nothing but [self.audio]. *)
Lemma assign_shape_frame (r : LofiMaker -> result AudioSegment) self :
  same_config self
    (snd ((x <- get ;; seg <- lift (r x) ;; assign_audio seg ;;
           read_audio)%method self)).
Proof.
  unfold bind, get, lift, assign_audio, read_audio; cbn.
  destruct (r self); cbn;
    auto using same_config_refl, same_config_set.
Qed.

Lemma transform_frame s self : same_config self (snd (transform set_frame_rate s self)).
Proof.
  destruct s; cbn [transform].
  - apply (assign_shape_frame (fun x =>
      set_frame_rate
        (spawn_with_rate (audio x) (raw_samples (audio x))
           (Ztrunc (IZR (frame_rate (audio x)) * slow_speed x)))
        (frame_rate (audio x)))).
  - unfold reverb_audio, bind, get, lift, assign_audio, read_audio; cbn.
    destruct (reverb_data self); cbn;
      auto using same_config_refl, same_config_set.
  - unfold surround_audio, bind, get, lift, assign_audio, read_audio; cbn.
    destruct (negb _); cbn; [apply same_config_refl|].
    destruct (surround_data self); cbn;
      auto using same_config_refl, same_config_set.
  - unfold apply_nd_audio_effect, bind, get, lift, assign_audio,
      read_audio; cbn.
    destruct (negb _); cbn; [apply same_config_refl|].
    destruct (nd_data self); cbn;
      auto using same_config_refl, same_config_set.
Qed.

Lemma gated_stages_filter stages k self0 self :
  same_config self0 self ->
  gated_stages set_frame_rate stages k self =
  (run_stages set_frame_rate (filter (enabled self0) stages) ;; k)%method self.
Proof.
  revert self; induction stages as [|s rest IH]; intros self Hcfg.
  - reflexivity.
  - cbn [gated_stages filter].
    rewrite <- (same_config_enabled self0 self s Hcfg).
    unfold bind at 1. unfold when, bind at 1, get.
    destruct (enabled self s) eqn:Hs.
    + cbn [run_stages]. unfold bind.
      pose proof (transform_frame s self) as Hfr.
      destruct (transform set_frame_rate s self) as [[a|e|] self1]; cbn in Hfr |- *;
        try reflexivity.
      apply IH. eapply same_config_trans; eauto.
    + unfold read_audio. apply IH, Hcfg.
Qed.

(** C5.  For every configuration of the flags, [process] runs exactly the
    enabled transforms among Speed, Reverb, Surround, Dimension, in that
    order, on the one buffer (a disabled stage leaves the state as it
    is), and then runs Normalize, whatever the flags are. *)
Theorem process_fixed_order (self : LofiMaker) :
  process set_frame_rate quantize max_possible_amplitude self =
  pipeline_spec set_frame_rate quantize max_possible_amplitude self.
Proof.
  unfold pipeline_spec.
  rewrite <- (gated_stages_filter stage_order
                  (normalize_audio quantize max_possible_amplitude) self self
                (same_config_refl self)).
  reflexivity.
Qed.

End Orchestrator.

(** ** Pan transforms on a buffer that is not stereo *)

(** C6.  On a buffer whose channel count is not 2, both pan transforms
    raise the [ValueError] of their first statement, and the maker's state
    (its buffer included) is the one they were called on. *)
Theorem pan_requires_stereo (self : LofiMaker) :
  channels (audio self) <> 2%Z ->
  surround_audio self =
    (Raise (ValueError "Surround effect requires stereo audio."), self) /\
  apply_nd_audio_effect self =
    (Raise (ValueError "N-D audio effect requires stereo input."), self).
Proof.
  intros Hch.
  assert (Hneq : (channels (audio self) =? 2)%Z = false)
    by (apply Z.eqb_neq; exact Hch).
  unfold surround_audio, apply_nd_audio_effect, bind, get, lift.
  rewrite Hneq. split; reflexivity.
Qed.

Lemma pan_requires_stereo_witness :
  surround_audio (default_maker quiet_mono) =
    (Raise (ValueError "Surround effect requires stereo audio."),
     default_maker quiet_mono) /\
  apply_nd_audio_effect (default_maker quiet_mono) =
    (Raise (ValueError "N-D audio effect requires stereo input."),
     default_maker quiet_mono).
Proof.
  apply (pan_requires_stereo (default_maker quiet_mono)).
  cbn. discriminate.
Defined.

(** * Further properties of the transforms *)

(** ** Reverb: when it raises and what it keeps *)

Section EchoTotal.
Context {T : Type} `{Row T}.

(** With a delay other than zero the slice assignment of one pass always
    fits: [atten[d*i:]] and [samples[:-d*i]] have the same length, for a
    negative delay as well (then the start of the signal is copied to the
    end of [atten]). *)
Lemma echo_step_fits (samples output : list T) (D : Z) (c : R) (k : nat) :
  D <> 0%Z -> (1 <= k)%nat -> length output = length samples ->
  exists out, echo_step samples D c output (Z.of_nat k) = Ok out /\
              length out = length samples.
Proof.
  intros HD Hk Hlen. unfold echo_step.
  assert (Hm : (D * Z.of_nat k)%Z <> 0%Z) by nia.
  replace (- D * Z.of_nat k)%Z with (- (D * Z.of_nat k))%Z by ring.
  set (m := (D * Z.of_nat k)%Z) in *.
  set (n := length samples).
  set (src := map (rscale (c ^ Z.to_nat (Z.of_nat k)))
                  (Np.slice_to (- m) samples)).
  assert (Hfit : length src =
                 (n - Z.to_nat (Np.norm_index (Z.of_nat n) m))%nat).
  { unfold src. rewrite length_map. unfold Np.slice_to, Np.len. fold n.
    rewrite length_firstn. fold n. unfold Np.norm_index.
    destruct (- m <? 0)%Z eqn:E1;
      [apply Z.ltb_lt in E1|apply Z.ltb_ge in E1];
      destruct (m <? 0)%Z eqn:E2;
      [apply Z.ltb_lt in E2|apply Z.ltb_ge in E2|
       apply Z.ltb_lt in E2|apply Z.ltb_ge in E2]; lia. }
  unfold Np.set_slice_from, Np.len, zeros_like. rewrite length_map. fold n.
  rewrite Hfit, Nat.eqb_refl. cbn [rbind]. eexists. split; [reflexivity|].
  rewrite map2_length; [exact Hlen|].
  rewrite length_app, length_firstn, length_map. fold n.
  rewrite Hfit, Hlen. fold n.
  assert (Hle : (Z.to_nat (Np.norm_index (Z.of_nat n) m) <= n)%nat).
  { unfold Np.norm_index. destruct (m <? 0)%Z eqn:E;
      [apply Z.ltb_lt in E|apply Z.ltb_ge in E]; lia. }
  lia.
Qed.

Lemma echo_loop_fits (samples : list T) (D : Z) (c : R) (ks : list nat)
    (output : list T) :
  D <> 0%Z -> Forall (fun k => (1 <= k)%nat) ks ->
  length output = length samples ->
  exists out, foldM (echo_step samples D c) (map Z.of_nat ks) output = Ok out
              /\ length out = length samples.
Proof.
  intros HD Hks. revert output.
  induction Hks as [|k ks Hk _ IH]; intros output Hlen; cbn.
  - exists output. split; [reflexivity|exact Hlen].
  - destruct (echo_step_fits samples output D c k HD Hk Hlen)
      as [out [-> Hout]]. cbn. apply IH, Hout.
Qed.

(** The loop fails in one case only. *)
Lemma echo_total (samples : list T) (D : Z) (c : R) (repeats : Z) :
  D <> 0%Z \/ (repeats <= 0)%Z ->
  exists out, echo samples D c repeats = Ok out /\
              length out = length samples.
Proof.
  intros [HD|Hr].
  - unfold echo. rewrite range_from_1.
    apply echo_loop_fits; [exact HD| |reflexivity].
    apply Forall_forall. intros k Hk. apply in_seq in Hk. lia.
  - exists samples. split; [apply echo_no_repeat, Hr|reflexivity].
Qed.


End EchoTotal.
Lemma reverb_echoed_total (self : LofiMaker) :
  well_formed (audio self) ->
  delay_samples self <> 0%Z \/ (reverb_repeats self <= 0)%Z ->
  exists e, reverb_echoed self = Ok e /\
            length e = length (raw_samples (audio self)).
Proof.
  intros Hwf Hcase. unfold reverb_echoed.
  destruct (channels (audio self) =? 2)%Z eqn:Hch.
  - apply Z.eqb_eq in Hch.
    destruct (wf_stereo_even _ Hwf Hch) as [n Hn].
    rewrite <- float_samples_length in Hn.
    rewrite (reshape2_frames n) by exact Hn. cbn [rbind].
    destruct (echo_total (frames_of (float_samples (audio self)))
                (delay_samples self) (reverb_decay self)
                (reverb_repeats self) Hcase) as [out [-> Hout]].
    cbn [rbind]. eexists. split; [reflexivity|].
    rewrite flatten2_length, Hout, (frames_of_length n) by exact Hn.
    rewrite <- float_samples_length. lia.
  - destruct (echo_total (float_samples (audio self))
                (delay_samples self) (reverb_decay self)
                (reverb_repeats self) Hcase) as [out [-> Hout]].
    eexists. split; [reflexivity|].
    rewrite Hout. apply float_samples_length.
Qed.

(** The int16 data obtained from an array with a non-zero peak: within
    [-32767, 32767], and the peak sample is exactly at 32767. *)
Lemma rescaled_data_peak (e : list R) :
  0 < peak_abs e ->
  let data := map (fun x => Ztrunc (x / peak_abs e * full_scale)) e in
  Forall (fun z => (-32767 <= z <= 32767)%Z) data /\
  exists z, In z data /\ Z.abs z = 32767%Z.
Proof.
  intros Hpos data. split.
  - apply Forall_forall. intros z Hz. apply in_map_iff in Hz.
    destruct Hz as [x [<- Hin]].
    apply Ztrunc_between; [lia|].
    apply Rabs_le_between; [|lia].
    apply rescaled_bound; [exact Hpos|apply peak_abs_ge, Hin].
  - destruct (peak_abs_attained e) as [x [Hin Hx]].
    { intros He. rewrite He in Hpos. cbn in Hpos. lra. }
    exists (Ztrunc (x / peak_abs e * full_scale)). split.
    + apply (in_map (fun x => Ztrunc (x / peak_abs e * full_scale))), Hin.
    + pose proof (rescaled_peak _ x Hpos Hx) as Hfull.
      unfold full_scale in *. unfold Rabs in Hfull.
      destruct (Rcase_abs (x / peak_abs e * 32767)) as [Hneg|Hnn].
      * replace (x / peak_abs e * 32767) with (IZR (-32767)) by lra.
        rewrite Ztrunc_IZR. reflexivity.
      * rewrite Hfull, Ztrunc_IZR. reflexivity.
Qed.

Lemma max_amplitude_exact (seg : AudioSegment) (m : Z) :
  Forall (fun z => (- m <= z <= m)%Z) (raw_samples seg) ->
  (exists z, In z (raw_samples seg) /\ Z.abs z = m) ->
  max_amplitude seg = m.
Proof.
  intros Hall [z [Hin Hz]].
  pose proof (max_amplitude_ge seg z Hin) as Hge.
  destruct (max_amplitude_attained seg) as [H0|[s [Hs Ha]]]; [lia|].
  pose proof (proj1 (Forall_forall _ _) Hall s Hs) as Hb.
  cbn beta in Hb. lia.
Qed.

Lemma peak_abs_zero_inv (l : list R) :
  peak_abs l = 0 -> Forall (fun x => x = 0) l.
Proof.
  intros Hp. apply Forall_forall. intros x Hin.
  pose proof (peak_abs_ge l x Hin) as Hle. rewrite Hp in Hle.
  pose proof (Rabs_pos x).
  destruct (Req_dec_T x 0) as [H0|Hn]; [exact H0|].
  pose proof (Rabs_pos_lt x Hn). lra.
Qed.



(** The outcome of Reverb once the echo loop has succeeded. *)
Lemma reverb_outcome_of_echoed (self : LofiMaker) (e : list R) :
  raw_samples (audio self) <> [] ->
  reverb_echoed self = Ok e ->
  length e = length (raw_samples (audio self)) ->
  (peak_abs e = 0 /\ reverb_audio self = (Undefined, self)) \/
  (0 < peak_abs e /\
   exists seg,
     reverb_audio self = (Ok seg, set_audio self seg) /\
     length (raw_samples seg) = length (raw_samples (audio self)) /\
     frame_rate seg = frame_rate (audio self) /\
     channels seg = channels (audio self) /\
     Forall (fun z => (-32767 <= z <= 32767)%Z) (raw_samples seg) /\
     max_amplitude seg = 32767%Z).
Proof.
  intros Hne He Hlen.
  assert (Hene : e <> []).
  { intros H0. rewrite H0 in Hlen. destruct (raw_samples (audio self));
      [congruence|discriminate]. }
  pose proof (peak_abs_ge e) as Hge.
  destruct (Req_dec_T (peak_abs e) 0) as [Hz|Hnz].
  - left. split; [exact Hz|]. rewrite reverb_audio_run. unfold reverb_data.
    rewrite (reverb_float_of_echoed self e He Hene).
    rewrite rescale_all_zero by (apply peak_abs_zero_inv, Hz).
    destruct e; [congruence|]. reflexivity.
  - right.
    assert (Hpos : 0 < peak_abs e).
    { destruct e as [|x e]; [congruence|].
      pose proof (Hge x (or_introl eq_refl)). pose proof (Rabs_pos x). lra. }
    split; [exact Hpos|]. eexists.
    rewrite reverb_audio_run, (reverb_data_of_echoed self e He Hpos).
    split; [reflexivity|]. cbn [raw_samples frame_rate channels spawn].
    split; [rewrite length_map; exact Hlen|]. split; [reflexivity|].
    split; [reflexivity|].
    destruct (rescaled_data_peak e Hpos) as [Hall Hpeak].
    split; [exact Hall|].
    apply max_amplitude_exact; [exact Hall|exact Hpeak].
Qed.




(** ** Surround: when it raises and what it keeps *)

Lemma surround_audio_run (self : LofiMaker) :
  channels (audio self) = 2%Z ->
  surround_audio self =
  match surround_data self with
  | Ok data => (Ok (spawn (audio self) data),
                set_audio self (spawn (audio self) data))
  | Raise e => (Raise e, self)
  | Undefined => (Undefined, self)
  end.
Proof.
  intros Hch.
  unfold surround_audio, bind, get, lift, assign_audio, read_audio.
  rewrite (proj2 (Z.eqb_eq _ _) Hch). cbn [negb].
  destruct (surround_data self); reflexivity.
Qed.

Lemma pan_phase_raises (sample_rate : Z) (cycle : R) (i : Z) :
  sample_rate = 0%Z \/ cycle = 0 ->
  pan_phase sample_rate cycle i = Raise ZeroDivisionError.
Proof.
  intros Hz. unfold pan_phase, py_div, py_mod.
  destruct (Req_dec_T (IZR sample_rate) 0) as [_|Hr]; [reflexivity|].
  cbn [rbind]. destruct (Req_dec_T cycle 0) as [_|Hc]; [reflexivity|].
  destruct Hz as [Hz|Hz]; [|contradiction].
  exfalso. apply Hr. rewrite Hz. reflexivity.
Qed.

Lemma surround_data_of_panned (self : LofiMaker) (p : list (R * R)) :
  surround_panned self = Ok p -> 0 < peak_abs (Np.flatten2 p) ->
  surround_data self =
  Ok (map (fun x => Ztrunc (x / peak_abs (Np.flatten2 p) * full_scale))
        (Np.flatten2 p)).
Proof.
  intros Hp Hpos. unfold surround_data.
  rewrite (surround_float_of_panned self p Hp)
    by (intros He; rewrite He in Hpos; cbn in Hpos; lra).
  cbn [rbind]. rewrite mapM_map. apply mapM_Ok. intros x Hin.
  rewrite rescale_nonzero by lra.
  apply astype_int16_in_range, rescaled_bound;
    [exact Hpos|apply peak_abs_ge, Hin].
Qed.

(** X3.  On an empty stereo buffer Surround raises numpy's zero-size
    reduction error: the loop body never runs (so not even a cycle
    duration of 0 is noticed) and [np.max] of the empty array fails.
    [self.audio] is not assigned. *)
Theorem surround_empty_buffer_raises (self : LofiMaker) :
  channels (audio self) = 2%Z -> raw_samples (audio self) = [] ->
  surround_audio self = (Raise EmptyReduction, self).
Proof.
  intros Hch Hraw. rewrite surround_audio_run by exact Hch.
  unfold surround_data, surround_float, surround_panned, float_samples.
  rewrite Hraw. reflexivity.
Qed.

Lemma surround_empty_buffer_raises_witness :
  surround_audio (scenario_C_maker (mkAudio [] 100 2))
  = (Raise EmptyReduction, scenario_C_maker (mkAudio [] 100 2)).
Proof. apply surround_empty_buffer_raises; reflexivity. Defined.

(** X4.  On a stereo buffer with at least one frame, a cycle duration of
    0 (or a sample rate of 0) makes Surround raise [ZeroDivisionError] at
    the first frame, from [%] (or [/]); [self.audio] is not assigned. *)
Theorem surround_zero_cycle_raises (self : LofiMaker) (l r : Z)
    (rest : list Z) :
  channels (audio self) = 2%Z ->
  raw_samples (audio self) = l :: r :: rest ->
  Nat.Even (length rest) ->
  surround_cycle_duration self = 0 \/ frame_rate (audio self) = 0%Z ->
  surround_audio self = (Raise ZeroDivisionError, self).
Proof.
  intros Hch Hraw [n Hn] Hz. rewrite surround_audio_run by exact Hch.
  unfold surround_data, surround_float, surround_panned, float_samples.
  rewrite Hraw. cbn [map].
  rewrite (reshape2_frames (S n)) by (cbn; rewrite length_map; lia).
  cbn [rbind frames_of]. rewrite range_all. cbn [length seq map foldM].
  unfold surround_step at 1.
  rewrite pan_phase_raises by (destruct Hz; auto). reflexivity.
Qed.

Lemma surround_zero_cycle_raises_witness :
  surround_audio
    (mkLofiMaker loud_stereo false (85 / 100) true 0 (7 / 10) false (3 / 10)
       120 2 (-1) false 8 4)
  = (Raise ZeroDivisionError,
     mkLofiMaker loud_stereo false (85 / 100) true 0 (7 / 10) false (3 / 10)
       120 2 (-1) false 8 4).
Proof.
  apply (surround_zero_cycle_raises _ 1000 (-500) []).
  - reflexivity.
  - reflexivity.
  - exists 0%nat. reflexivity.
  - left. reflexivity.
Defined.

(** X5.  On a well-formed stereo buffer that is not silent, with a cycle
    other than 0 and a depth below 1 in absolute value, Surround returns
    normally; the new buffer has the input's sample count, sample rate and
    channel count, its samples lie in [-32767, 32767] and its largest
    absolute sample is exactly 32767. *)
Theorem surround_output_invariants (self : LofiMaker) :
  well_formed (audio self) -> channels (audio self) = 2%Z ->
  surround_cycle_duration self <> 0 ->
  Rabs (surround_depth self) < 1 -> non_silent (audio self) ->
  exists seg,
    surround_audio self = (Ok seg, set_audio self seg) /\
    length (raw_samples seg) = length (raw_samples (audio self)) /\
    frame_rate seg = frame_rate (audio self) /\
    channels seg = channels (audio self) /\
    Forall (fun z => (-32767 <= z <= 32767)%Z) (raw_samples seg) /\
    max_amplitude seg = 32767%Z.
Proof.
  intros Hwf Hch Hc Hd Hns.
  destruct (surround_panned_non_silent self Hwf Hch Hd Hns) as [x [Hin Hx]].
  pose proof (surround_panned_spec self Hwf Hch Hc) as Hp.
  set (p := panned_spec _ _ _ _) in *.
  assert (Hpos : 0 < peak_abs (Np.flatten2 p))
    by (apply (peak_abs_pos _ x); assumption).
  destruct (wf_stereo_even _ Hwf Hch) as [n Hn].
  eexists. rewrite surround_audio_run by exact Hch.
  rewrite (surround_data_of_panned self p Hp Hpos).
  split; [reflexivity|]. cbn [raw_samples frame_rate channels spawn].
  split.
  { rewrite length_map, flatten2_length. unfold p, panned_spec.
    rewrite mapi_from_length, (frames_of_length n)
      by (rewrite float_samples_length; exact Hn). lia. }
  split; [reflexivity|]. split; [reflexivity|].
  destruct (rescaled_data_peak (Np.flatten2 p) Hpos) as [Hall Hpeak].
  split; [exact Hall|].
  apply max_amplitude_exact; [exact Hall|exact Hpeak].
Qed.

Lemma surround_output_invariants_witness :
  exists seg,
    surround_audio (default_maker loud_stereo)
      = (Ok seg, set_audio (default_maker loud_stereo) seg) /\
    length (raw_samples seg) = 2%nat /\
    max_amplitude seg = 32767%Z.
Proof.
  destruct (surround_output_invariants (default_maker loud_stereo))
    as [seg (Hrun & Hlen & _ & _ & _ & Hmax)].
  - apply wf_loud_stereo.
  - reflexivity.
  - cbn. lra.
  - cbn. rewrite Rabs_right; lra.
  - exists 1000%Z. split; [left; reflexivity|discriminate].
  - exists seg. split; [exact Hrun|]. split; [exact Hlen|exact Hmax].
Defined.

(** ** Dimension: what it keeps and when it raises *)

Lemma Ztrunc_scaled (s : Z) (g : R) :
  0 <= g <= 1 -> attenuated (Ztrunc (IZR s * g)) s.
Proof.
  intros Hg. unfold attenuated.
  destruct (Z.le_gt_cases 0 s) as [Hs|Hs].
  - assert (Hb : (0 <= Ztrunc (IZR s * g) <= s)%Z).
    { apply Ztrunc_between; [lia|]. apply IZR_le in Hs. nra. }
    split; [lia|nia].
  - assert (Hb : (s <= Ztrunc (IZR s * g) <= 0)%Z).
    { apply Ztrunc_between; [lia|]. apply IZR_lt in Hs. nra. }
    split; [lia|nia].
Qed.

Lemma flatten2_mapi_Forall2 {A B} (P : B -> A -> Prop)
    (h : nat -> A * A -> B * B) (k : nat) (frames : list (A * A)) :
  (forall i row, P (fst (h i row)) (fst row) /\ P (snd (h i row)) (snd row)) ->
  Forall2 P (Np.flatten2 (mapi_from k h frames)) (Np.flatten2 frames).
Proof.
  intros Hh. revert k. induction frames as [|row frames IH]; intros k; cbn.
  - constructor.
  - destruct (Hh k row) as [H1 H2].
    constructor; [exact H1|]. constructor; [exact H2|]. apply IH.
Qed.

(** X6.  On a well-formed stereo buffer, with a cycle other than 0,
    Dimension returns normally (no store overflows); the new buffer has
    the input's sample count, sample rate and channel count, and each of
    its samples is no larger in magnitude than the input sample at the
    same position and never of the opposite sign: Dimension only
    attenuates. *)
Theorem nd_only_attenuates (self : LofiMaker) :
  well_formed (audio self) -> channels (audio self) = 2%Z ->
  nd_cycle_duration self <> 0 ->
  exists seg,
    apply_nd_audio_effect self = (Ok seg, set_audio self seg) /\
    frame_rate seg = frame_rate (audio self) /\
    channels seg = channels (audio self) /\
    Forall2 attenuated (raw_samples seg) (raw_samples (audio self)).
Proof.
  intros Hwf Hch Hc.
  destruct (wf_stereo_even _ Hwf Hch) as [n Hn].
  eexists. rewrite nd_audio_run, (nd_data_spec self Hwf Hch Hc) by exact Hch.
  split; [reflexivity|]. cbn [raw_samples frame_rate channels spawn].
  split; [reflexivity|]. split; [reflexivity|].
  unfold panned_spec, float_samples.
  rewrite frames_of_map, mapi_from_map, map_mapi_from.
  rewrite <- (flatten2_frames n (raw_samples (audio self)) Hn) at 2.
  apply flatten2_mapi_Forall2. intros i row.
  unfold trunc_frame, pan_frame, pan_value. cbn [fst snd].
  rewrite Rmult_1_r.
  destruct (gains_in_unit _ (SIN_bound
              (2 * PI * pan_time (frame_rate (audio self))
                          (nd_cycle_duration self) i
               / nd_cycle_duration self))) as [Hgl Hgr].
  split; apply Ztrunc_scaled; assumption.
Qed.

Lemma nd_only_attenuates_witness :
  exists seg,
    apply_nd_audio_effect (default_maker loud_stereo)
      = (Ok seg, set_audio (default_maker loud_stereo) seg) /\
    Forall2 attenuated (raw_samples seg) [1000; -500]%Z.
Proof.
  destruct (nd_only_attenuates (default_maker loud_stereo))
    as [seg (Hrun & _ & _ & Hatt)].
  - apply wf_loud_stereo.
  - reflexivity.
  - unfold nd_cycle_duration. cbn. lra.
  - exists seg. split; [exact Hrun|exact Hatt].
Defined.

(** X7.  An empty stereo buffer passes through Dimension: it returns
    normally with an empty buffer, whatever the parameters (Reverb and
    Surround raise on it). *)
Theorem nd_accepts_empty_buffer (self : LofiMaker) :
  channels (audio self) = 2%Z -> raw_samples (audio self) = [] ->
  apply_nd_audio_effect self =
  (Ok (spawn (audio self) []), set_audio self (spawn (audio self) [])).
Proof.
  intros Hch Hraw. rewrite nd_audio_run by exact Hch.
  unfold nd_data. rewrite Hraw. reflexivity.
Qed.

Lemma nd_accepts_empty_buffer_witness :
  apply_nd_audio_effect (zero_dimension_maker (mkAudio [] 100 2)) =
  (Ok (mkAudio [] 100 2),
   set_audio (zero_dimension_maker (mkAudio [] 100 2)) (mkAudio [] 100 2)).
Proof.
  apply (nd_accepts_empty_buffer (zero_dimension_maker (mkAudio [] 100 2)));
    reflexivity.
Defined.

(** X8.  With [dimension_number = 0] or [dimension_cycle = 0] the cycle
    duration is 0 and Dimension raises [ZeroDivisionError] at the first
    frame of any stereo buffer that has one (as it does for a sample rate
    of 0); [self.audio] is not assigned. *)
Theorem nd_zero_cycle_raises (self : LofiMaker) (l r : Z) (rest : list Z) :
  channels (audio self) = 2%Z ->
  raw_samples (audio self) = l :: r :: rest ->
  Nat.Even (length rest) ->
  dimension_number self = 0%Z \/ dimension_cycle self = 0 \/
  frame_rate (audio self) = 0%Z ->
  apply_nd_audio_effect self = (Raise ZeroDivisionError, self).
Proof.
  intros Hch Hraw [n Hn] Hz. rewrite nd_audio_run by exact Hch.
  unfold nd_data. rewrite Hraw.
  rewrite (reshape2_frames (S n)) by (cbn; lia).
  cbn [rbind frames_of]. rewrite range_all. cbn [length seq map foldM].
  unfold nd_step at 1. rewrite pan_phase_raises; [reflexivity|].
  unfold nd_cycle_duration.
  destruct Hz as [Hz|[Hz|Hz]]; [right|right|left; exact Hz];
    rewrite Hz; unfold Rdiv; ring.
Qed.

Lemma nd_zero_cycle_raises_witness :
  apply_nd_audio_effect (zero_dimension_maker loud_stereo)
  = (Raise ZeroDivisionError, zero_dimension_maker loud_stereo).
Proof.
  apply (nd_zero_cycle_raises _ 1000 (-500) []).
  - reflexivity.
  - reflexivity.
  - exists 0%nat. reflexivity.
  - left. reflexivity.
Defined.

(** ** The delay in samples and the period of the pan *)

Lemma Ztrunc_div (a b : Z) :
  (0 < b)%Z -> Ztrunc (IZR a / IZR b) = Z.quot a b.
Proof.
  intros Hb. pose proof (Z.quot_rem' a b) as Hqr.
  assert (HbR : 0 < IZR b) by (apply IZR_lt; exact Hb).
  assert (Hval : IZR a / IZR b
                 = IZR (Z.quot a b) + IZR (Z.rem a b) / IZR b).
  { rewrite Hqr at 1. rewrite plus_IZR, mult_IZR. field. lra. }
  destruct (Z.le_gt_cases 0 a) as [Ha|Ha].
  - pose proof (Z.rem_bound_pos a b Ha Hb) as [Hr0 Hr1].
    apply IZR_le in Hr0. apply IZR_lt in Hr1.
    assert (Hfrac : 0 <= IZR (Z.rem a b) / IZR b < 1).
    { split.
      - apply Rmult_le_pos; [exact Hr0|].
        left; apply Rinv_0_lt_compat; exact HbR.
      - apply Rmult_lt_reg_r with (IZR b); [exact HbR|].
        unfold Rdiv. rewrite Rmult_assoc, Rinv_l by lra. lra. }
    assert (Hq : (0 <= Z.quot a b)%Z) by (apply Z.quot_pos; lia).
    apply IZR_le in Hq.
    apply Ztrunc_nonneg_eq; rewrite Hval; lra.
  - assert (Hr : (- b < Z.rem a b <= 0)%Z).
    { pose proof (Z.rem_bound_pos (- a) b) as H.
      rewrite Z.rem_opp_l in H by lia. lia. }
    destruct Hr as [Hr0 Hr1]. apply IZR_lt in Hr0. apply IZR_le in Hr1.
    rewrite opp_IZR in Hr0.
    assert (Hfrac : -1 < IZR (Z.rem a b) / IZR b <= 0).
    { split.
      - apply Rmult_lt_reg_r with (IZR b); [exact HbR|].
        unfold Rdiv. rewrite Rmult_assoc, Rinv_l by lra. lra.
      - apply Rmult_le_reg_r with (IZR b); [exact HbR|].
        unfold Rdiv. rewrite Rmult_assoc, Rinv_l by lra. lra. }
    apply IZR_lt in Ha.
    assert (Hneg : IZR a / IZR b < 0).
    { apply Rmult_lt_reg_r with (IZR b); [exact HbR|].
      unfold Rdiv. rewrite Rmult_assoc, Rinv_l by lra. lra. }
    apply Ztrunc_neg_eq; [exact Hneg|]. rewrite Hval. lra.
Qed.

Lemma delay_samples_quot (self : LofiMaker) :
  delay_samples self
  = Z.quot (frame_rate (audio self) * reverb_delay_ms self) 1000.
Proof. unfold delay_samples. apply (Ztrunc_div _ 1000). lia. Qed.

Lemma delay_samples_zero_iff (self : LofiMaker) :
  delay_samples self = 0%Z <->
  (-1000 < frame_rate (audio self) * reverb_delay_ms self < 1000)%Z.
Proof.
  rewrite delay_samples_quot.
  set (a := (frame_rate (audio self) * reverb_delay_ms self)%Z).
  pose proof (Z.quot_rem' a 1000) as Hqr. split.
  - intros H0. rewrite H0 in Hqr.
    destruct (Z.le_gt_cases 0 a) as [Ha|Ha].
    + pose proof (Z.rem_bound_pos a 1000 Ha). lia.
    + pose proof (Z.rem_bound_pos (- a) 1000) as H.
      rewrite Z.rem_opp_l in H by lia. lia.
  - intros [Hlo Hhi].
    destruct (Z.le_gt_cases 0 a) as [Ha|Ha].
    + apply Z.quot_small. lia.
    + replace a with (- - a)%Z by lia. rewrite Z.quot_opp_l by lia.
      rewrite Z.quot_small by lia. reflexivity.
Qed.

(** X9.  The reverb delay in samples is the integer quotient of
    [frame_rate * reverb_delay_ms] by 1000, truncated toward zero.  On a
    non-empty well-formed buffer, with at least one repeat, Reverb raises
    numpy's broadcast [ValueError] exactly when that product lies strictly
    between -1000 and 1000 (a delay of less than one sample either way);
    [self.audio] is then unchanged. *)
Theorem reverb_fails_iff_delay_below_one_sample (self : LofiMaker) :
  well_formed (audio self) -> raw_samples (audio self) <> [] ->
  (1 <= reverb_repeats self)%Z ->
  delay_samples self
    = Z.quot (frame_rate (audio self) * reverb_delay_ms self) 1000 /\
  (reverb_audio self = (Raise BroadcastError, self) <->
   (-1000 < frame_rate (audio self) * reverb_delay_ms self < 1000)%Z).
Proof.
  intros Hwf Hne Hr. split; [apply delay_samples_quot|].
  rewrite <- delay_samples_zero_iff. split.
  - intros Hraise.
    destruct (Z.eq_dec (delay_samples self) 0) as [H0|Hn]; [exact H0|].
    exfalso.
    destruct (reverb_echoed_total self Hwf (or_introl Hn)) as [e [He Hlen]].
    destruct (reverb_outcome_of_echoed self e Hne He Hlen)
      as [[_ Hu]|[_ [seg [Hok _]]]];
      rewrite Hraise in *; discriminate.
  - intros H0. rewrite reverb_audio_run. unfold reverb_data.
    rewrite (reverb_float_raise self BroadcastError); [reflexivity|].
    apply reverb_echoed_zero_delay; assumption.
Qed.

Lemma reverb_fails_iff_delay_below_one_sample_witness :
  reverb_audio short_delay_maker = (Raise BroadcastError, short_delay_maker).
Proof.
  destruct (reverb_fails_iff_delay_below_one_sample short_delay_maker)
    as [_ [_ Hraise]].
  - apply wf_short_delay.
  - discriminate.
  - cbn. lia.
  - apply Hraise. cbn. lia.
Defined.

(** ** The pan as a function of the frame index *)

Lemma sin_period_Z (y : R) (k : Z) : sin (y + 2 * IZR k * PI) = sin y.
Proof.
  destruct (Z.le_gt_cases 0 k) as [Hk|Hk].
  - rewrite <- (Z2Nat.id k Hk), <- INR_IZR_INZ. apply sin_period.
  - rewrite <- (sin_period (y + 2 * IZR k * PI) (Z.to_nat (- k))).
    rewrite INR_IZR_INZ, Z2Nat.id, opp_IZR by lia. f_equal. ring.
Qed.

(** The reduction of [t] modulo the cycle leaves the pan as it is. *)
Lemma pan_phase_unreduced (sample_rate : Z) (cycle : R) (i : Z) :
  sample_rate <> 0%Z -> cycle <> 0 ->
  pan_phase sample_rate cycle i
  = Ok (sin (2 * PI * (IZR i / IZR sample_rate) / cycle)).
Proof.
  intros Hr Hc. unfold pan_phase, py_div, py_mod.
  destruct (Req_dec_T (IZR sample_rate) 0) as [H0|_].
  { exfalso. apply Hr, eq_IZR. exact H0. }
  cbn [rbind]. destruct (Req_dec_T cycle 0) as [H0|_]; [contradiction|].
  cbn [rbind]. f_equal.
  set (x := IZR i / IZR sample_rate). set (k := Zfloor (x / cycle)).
  rewrite <- (sin_period_Z (2 * PI * (x - cycle * IZR k) / cycle) k).
  f_equal. field. exact Hc.
Qed.

(** X10.  For a sample rate and a cycle other than 0, the pan of frame [i]
    is [sin(2 pi i / (sample_rate * cycle))]: in exact arithmetic the
    reduction [% cycle] of the time does not change it. *)
Theorem pan_ignores_time_reduction (sample_rate : Z) (cycle : R) (i : Z) :
  sample_rate <> 0%Z -> cycle <> 0 ->
  pan_phase sample_rate cycle i
  = Ok (sin (2 * PI * IZR i / (IZR sample_rate * cycle))).
Proof.
  intros Hr Hc. rewrite pan_phase_unreduced by assumption.
  do 2 f_equal. field. split; [exact Hc|].
  intros H0. apply Hr, eq_IZR. exact H0.
Qed.

Lemma pan_ignores_time_reduction_witness :
  pan_phase 44100 14 1234567
  = Ok (sin (2 * PI * 1234567 / (44100 * 14))).
Proof.
  apply (pan_ignores_time_reduction 44100 14 1234567).
  - discriminate.
  - lra.
Defined.

(** X11.  The pan repeats after every whole cycle: when [n] frames last
    exactly one cycle ([n = sample_rate * cycle]), frames [i] and [i + n]
    get the same pan (or both raise [ZeroDivisionError]). *)
Theorem pan_repeats_every_cycle (sample_rate : Z) (cycle : R) (i n : Z) :
  IZR n = IZR sample_rate * cycle ->
  pan_phase sample_rate cycle (i + n) = pan_phase sample_rate cycle i.
Proof.
  intros Hn.
  destruct (Z.eq_dec sample_rate 0) as [Hr|Hr].
  { rewrite !pan_phase_raises by (left; exact Hr). reflexivity. }
  destruct (Req_dec_T cycle 0) as [Hc|Hc].
  { rewrite !pan_phase_raises by (right; exact Hc). reflexivity. }
  assert (HrR : IZR sample_rate <> 0).
  { intros H0. apply Hr, eq_IZR. exact H0. }
  rewrite !pan_phase_unreduced by assumption. f_equal.
  rewrite plus_IZR, Hn.
  rewrite <- (sin_period_Z (2 * PI * (IZR i / IZR sample_rate) / cycle) 1).
  f_equal. field. split; assumption.
Qed.

Lemma pan_repeats_every_cycle_witness :
  pan_phase 44100 14 (5 + 617400) = pan_phase 44100 14 5.
Proof.
  apply (pan_repeats_every_cycle 44100 14 5 617400).
  rewrite <- mult_IZR. reflexivity.
Defined.

(** ** Dimension at the first frame *)

(** X12.  Dimension starts at the centre: on a well-formed stereo buffer
    with a cycle other than 0, the pan of frame 0 is 0, both gains are
    1/2, and the first output frame is the first input frame halved,
    each sample truncated toward zero. *)
Theorem nd_halves_first_frame (self : LofiMaker) (l r : Z) (rest : list Z) :
  well_formed (audio self) -> channels (audio self) = 2%Z ->
  nd_cycle_duration self <> 0 ->
  raw_samples (audio self) = l :: r :: rest ->
  exists seg rest',
    apply_nd_audio_effect self = (Ok seg, set_audio self seg) /\
    raw_samples seg = Z.quot l 2 :: Z.quot r 2 :: rest' /\
    length rest' = length rest.
Proof.
  intros Hwf Hch Hc Hraw.
  destruct (wf_stereo_even _ Hwf Hch) as [n Hn].
  rewrite nd_audio_run, (nd_data_spec self Hwf Hch Hc) by exact Hch.
  unfold panned_spec, float_samples. rewrite Hraw.
  cbn [map frames_of mapi_from Np.flatten2 trunc_frame pan_frame fst snd].
  assert (Hpan : pan_value (frame_rate (audio self))
                   (nd_cycle_duration self) 1 0 = 0).
  { unfold pan_value, pan_time. cbn [INR].
    replace (0 / IZR (frame_rate (audio self))) with 0
      by (unfold Rdiv; ring).
    replace (0 / nd_cycle_duration self) with 0 by (unfold Rdiv; ring).
    replace (Zfloor 0) with 0%Z
      by (symmetry; apply Zfloor_eq; cbn; lra).
    replace (2 * PI * (0 - nd_cycle_duration self * 0)
             / nd_cycle_duration self) with 0
      by (unfold Rdiv; ring).
    rewrite sin_0. ring. }
  rewrite Hpan.
  assert (Hhead : trunc_frame (pan_frame 0 (IZR l, IZR r))
                  = (Z.quot l 2, Z.quot r 2)).
  { unfold trunc_frame, pan_frame, left_gain, right_gain. cbn [fst snd].
    replace (IZR l * ((1 + 0) / 2)) with (IZR l / IZR 2) by (cbn; lra).
    replace (IZR r * ((1 - 0) / 2)) with (IZR r / IZR 2) by (cbn; lra).
    rewrite !Ztrunc_div by lia. reflexivity. }
  rewrite Hhead.
  eexists. eexists. split; [reflexivity|].
  cbn [raw_samples spawn Np.flatten2 flat_map app fst snd].
  split; [reflexivity|].
  change (flat_map (fun row : Z * Z => [fst row; snd row]) ?x)
    with (Np.flatten2 x).
  rewrite Hraw in Hn. cbn [length] in Hn.
  assert (E : length rest = (2 * (n - 1))%nat) by lia.
  rewrite flatten2_length, length_map, mapi_from_length.
  rewrite (frames_of_length (n - 1)) by (rewrite length_map; exact E).
  lia.
Qed.

Lemma nd_halves_first_frame_witness :
  exists seg rest',
    apply_nd_audio_effect (default_maker loud_stereo)
      = (Ok seg, set_audio (default_maker loud_stereo) seg) /\
    raw_samples seg = 500%Z :: (-250)%Z :: rest' /\ length rest' = 0%nat.
Proof.
  apply (nd_halves_first_frame (default_maker loud_stereo) 1000 (-500) []).
  - apply wf_loud_stereo.
  - reflexivity.
  - unfold nd_cycle_duration. cbn. lra.
  - reflexivity.
Defined.

(** ** The methods in sequence *)

Lemma same_config_flags (a b : LofiMaker) :
  same_config a b ->
  slow_down b = slow_down a /\ reverb b = reverb a /\
  surround b = surround a /\ dimension b = dimension a.
Proof. unfold same_config. intros ->. destruct a. cbn. auto. Qed.

Lemma bind_when_on {B} (flag : LofiMaker -> bool) (m : M AudioSegment)
    (k : AudioSegment -> M B) (self : LofiMaker) :
  flag self = true -> bind (when flag m) k self = bind m k self.
Proof.
  intros Hf. unfold when, bind, get. rewrite Hf. reflexivity.
Qed.

Lemma returns_its_buffer_read : returns_its_buffer read_audio.
Proof.
  intros self. split; [apply same_config_refl|].
  cbn. intros seg H. injection H as <-. reflexivity.
Qed.

Lemma returns_its_buffer_assign (r : LofiMaker -> result AudioSegment) :
  returns_its_buffer
    (x <- get ;; seg <- lift (r x) ;; assign_audio seg ;; read_audio)%method.
Proof.
  intros self. unfold bind, get, lift, assign_audio, read_audio.
  destruct (r self) as [a|e|]; cbn.
  - split; [apply same_config_set|]. intros seg H. injection H as <-. reflexivity.
  - split; [apply same_config_refl|]. discriminate.
  - split; [apply same_config_refl|]. discriminate.
Qed.

Lemma returns_its_buffer_spawn (r : LofiMaker -> result (list Z)) :
  returns_its_buffer
    (self <- get ;;
     data <- lift (r self) ;;
     assign_audio (spawn (audio self) data) ;;
     read_audio)%method.
Proof.
  intros self. unfold bind, get, lift, assign_audio, read_audio.
  destruct (r self) as [a|e|]; cbn.
  - split; [apply same_config_set|]. intros seg H.
    injection H as <-. reflexivity.
  - split; [apply same_config_refl|]. discriminate.
  - split; [apply same_config_refl|]. discriminate.
Qed.

Lemma returns_its_buffer_guarded (msg : string)
    (r : LofiMaker -> result (list Z)) :
  returns_its_buffer
    (self <- get ;;
     if negb (channels (audio self) =? 2)%Z
     then lift (Raise (ValueError msg))
     else
       data <- lift (r self) ;;
       assign_audio (spawn (audio self) data) ;;
       read_audio)%method.
Proof.
  intros self. unfold bind, get, lift, assign_audio, read_audio.
  destruct (negb _); cbn.
  - split; [apply same_config_refl|]. discriminate.
  - destruct (r self) as [a|e|]; cbn.
    + split; [apply same_config_set|]. intros seg H.
      injection H as <-. reflexivity.
    + split; [apply same_config_refl|]. discriminate.
    + split; [apply same_config_refl|]. discriminate.
Qed.

Lemma returns_its_buffer_when (flag : LofiMaker -> bool)
    (m : M AudioSegment) :
  returns_its_buffer m -> returns_its_buffer (when flag m).
Proof.
  intros Hm self. unfold when, bind, get.
  destruct (flag self); [apply Hm|apply returns_its_buffer_read].
Qed.

Lemma returns_its_buffer_seq (m k : M AudioSegment) :
  returns_its_buffer m -> returns_its_buffer k ->
  returns_its_buffer (m ;; k)%method.
Proof.
  intros Hm Hk self. unfold bind.
  destruct (Hm self) as [Hcfg _].
  destruct (m self) as [[a|e|] self1]; cbn in Hcfg |- *.
  - destruct (Hk self1) as [Hcfg1 Hret]. split; [|exact Hret].
    eapply same_config_trans; eassumption.
  - split; [exact Hcfg|discriminate].
  - split; [exact Hcfg|discriminate].
Qed.

Lemma keeps_channels_read : keeps_channels read_audio.
Proof.
  intros self a self' H. injection H as _ <-.
  split; [apply same_config_refl|reflexivity].
Qed.

Lemma keeps_channels_reverb : keeps_channels reverb_audio.
Proof.
  intros self a self' H. rewrite reverb_audio_run in H.
  destruct (reverb_data self); try discriminate.
  injection H as _ <-. split; [apply same_config_set|reflexivity].
Qed.

Lemma keeps_channels_when (flag : LofiMaker -> bool) (m : M AudioSegment) :
  keeps_channels m -> keeps_channels (when flag m).
Proof.
  intros Hm self a self'. unfold when, bind, get.
  destruct (flag self); [apply Hm|apply keeps_channels_read].
Qed.

Lemma fails_after {B} (m : M AudioSegment) (k : M B) (self : LofiMaker) :
  keeps_channels m ->
  (forall self', same_config self self' ->
                 channels (audio self') = channels (audio self) ->
                 fails k self') ->
  fails (m ;; k)%method self.
Proof.
  intros Hm Hk b. unfold bind.
  destruct (m self) as [[a|e|] self1] eqn:E; cbn; try discriminate.
  destruct (Hm self a self1 E) as [Hcfg Hch]. apply Hk; assumption.
Qed.

Lemma surround_fails_on_mono {B} (k : M B) (self : LofiMaker) :
  channels (audio self) <> 2%Z -> surround self = true ->
  (when surround surround_audio ;; k)%method self =
  (Raise (ValueError "Surround effect requires stereo audio."), self).
Proof.
  intros Hch Hs. rewrite bind_when_on by exact Hs.
  unfold surround_audio, bind, get, lift.
  rewrite (proj2 (Z.eqb_neq _ _) Hch). reflexivity.
Qed.

Lemma nd_fails_on_mono {B} (k : M B) (self : LofiMaker) :
  channels (audio self) <> 2%Z -> dimension self = true ->
  (when dimension apply_nd_audio_effect ;; k)%method self =
  (Raise (ValueError "N-D audio effect requires stereo input."), self).
Proof.
  intros Hch Hs. rewrite bind_when_on by exact Hs.
  unfold apply_nd_audio_effect, bind, get, lift.
  rewrite (proj2 (Z.eqb_neq _ _) Hch). reflexivity.
Qed.

Section Sequence.

Variable set_frame_rate : AudioSegment -> Z -> result AudioSegment.
Variable quantize : R -> Z.
Variable max_possible_amplitude : R.

Lemma keeps_channels_slow :
  (forall seg rate seg',
      set_frame_rate seg rate = Ok seg' -> channels seg' = channels seg) ->
  keeps_channels (slow_audio set_frame_rate).
Proof.
  intros Hlib self a self'.
  unfold slow_audio, bind, get, lift, assign_audio, read_audio.
  destruct (set_frame_rate _ _) as [seg| |] eqn:E; try discriminate.
  intros H. injection H as _ <-. split; [apply same_config_set|].
  cbn [audio set_audio]. rewrite (Hlib _ _ _ E). reflexivity.
Qed.

(** X13.  Whatever the flags, the library and the outcome, [process]
    changes no attribute of the maker other than [self.audio]; and when it
    returns, the buffer it returns is the one it leaves in [self.audio]. *)
Theorem process_changes_only_audio (self : LofiMaker) :
  same_config self
    (snd (process set_frame_rate quantize max_possible_amplitude self)) /\
  forall seg,
    fst (process set_frame_rate quantize max_possible_amplitude self)
      = Ok seg ->
    audio (snd (process set_frame_rate quantize max_possible_amplitude self))
      = seg.
Proof.
  revert self.
  change (returns_its_buffer
            (process set_frame_rate quantize max_possible_amplitude)).
  unfold process.
  repeat (apply returns_its_buffer_seq;
          [apply returns_its_buffer_when|]).
  - apply (returns_its_buffer_assign (fun x =>
      set_frame_rate
        (spawn_with_rate (audio x) (raw_samples (audio x))
           (Ztrunc (IZR (frame_rate (audio x)) * slow_speed x)))
        (frame_rate (audio x)))).
  - apply (returns_its_buffer_spawn reverb_data).
  - apply returns_its_buffer_guarded.
  - apply returns_its_buffer_guarded.
  - apply (returns_its_buffer_assign (fun x =>
      apply_gain quantize (audio x)
        (sub (Fin (target_dBFS x))
             (max_dBFS max_possible_amplitude (audio x))))).
Qed.

Lemma pan_stages_fail_on_mono (self : LofiMaker) :
  channels (audio self) <> 2%Z ->
  surround self = true \/ dimension self = true ->
  fails
    (when surround surround_audio ;;
     when dimension apply_nd_audio_effect ;;
     normalize_audio quantize max_possible_amplitude)%method self.
Proof.
  intros Hch Hpan a.
  destruct (surround self) eqn:Hs.
  - rewrite surround_fails_on_mono by assumption. discriminate.
  - destruct Hpan as [Hpan|Hd]; [discriminate|].
    rewrite (bind_when_off surround) by exact Hs.
    rewrite nd_fails_on_mono by assumption. discriminate.
Qed.

(** X14.  With [surround] or [dimension] switched on, [process] never
    returns normally on a buffer that is not stereo, whatever the other
    flags and parameters are: given that the library's [set_frame_rate]
    keeps the channel count, neither Speed nor Reverb changes it, so the
    first enabled pan transform raises if no earlier stage has failed. *)
Theorem process_pan_fails_on_mono (self : LofiMaker) :
  (forall seg rate seg',
      set_frame_rate seg rate = Ok seg' -> channels seg' = channels seg) ->
  channels (audio self) <> 2%Z ->
  surround self = true \/ dimension self = true ->
  forall seg,
    fst (process set_frame_rate quantize max_possible_amplitude self)
    <> Ok seg.
Proof.
  intros Hlib Hch Hpan.
  change (fails (process set_frame_rate quantize max_possible_amplitude)
            self).
  unfold process.
  apply fails_after;
    [apply keeps_channels_when, keeps_channels_slow, Hlib|].
  intros self1 Hcfg1 Hch1.
  apply fails_after; [apply keeps_channels_when, keeps_channels_reverb|].
  intros self2 Hcfg2 Hch2.
  destruct (same_config_flags _ _ Hcfg1) as (_ & _ & Hs1 & Hd1).
  destruct (same_config_flags _ _ Hcfg2) as (_ & _ & Hs2 & Hd2).
  apply pan_stages_fail_on_mono.
  - rewrite Hch2, Hch1. exact Hch.
  - rewrite Hs2, Hs1, Hd2, Hd1. exact Hpan.
Qed.


End Sequence.

Lemma process_pan_fails_on_mono_witness :
  fst (process (fun seg _ => Ok seg) Zfloor 32768 mono_surround_maker)
  <> Ok quiet_mono.
Proof.
  apply (process_pan_fails_on_mono (fun seg _ => Ok seg) Zfloor 32768
           mono_surround_maker).
  - intros seg rate seg' H. injection H as <-. reflexivity.
  - cbn. discriminate.
  - left. reflexivity.
Defined.


(** ** Rescaling to full scale and the order of samples *)

Lemma Ztrunc_monotone (x y : R) : x <= y -> (Ztrunc x <= Ztrunc y)%Z.
Proof.
  intros Hxy. unfold Ztrunc.
  destruct (Rle_dec 0 x) as [Hx|Hx]; destruct (Rle_dec 0 y) as [Hy|Hy].
  - apply Zfloor_le, Hxy.
  - lra.
  - apply Z.le_trans with 0%Z.
    + pose proof (Zceil_bound x) as [Hlo Hhi].
      assert (Hlt : (Zceil x < 1)%Z) by (apply lt_IZR; lra). lia.
    + apply Zfloor_lub. exact Hy.
  - apply Zceil_le, Hxy.
Qed.

Lemma rescale_sample_monotone (peak : R) :
  0 < peak -> monotone (fun s => Ztrunc (IZR s / peak * full_scale)).
Proof.
  intros Hp a b Hab. apply Ztrunc_monotone. apply IZR_le in Hab.
  unfold full_scale, Rdiv.
  pose proof (Rinv_0_lt_compat peak Hp) as Hinv. nra.
Qed.

Lemma rescale_sample_zero (peak : R) :
  Ztrunc (IZR 0 / peak * full_scale) = 0%Z.
Proof.
  replace (IZR 0 / peak * full_scale) with (IZR 0)
    by (unfold Rdiv; ring).
  apply Ztrunc_IZR.
Qed.

Lemma rescale_full_scale_copy (peak : Z) (src : list Z) :
  (0 < peak)%Z ->
  full_scale_copy peak src
    (map (fun s => Ztrunc (IZR s / IZR peak * full_scale)) src).
Proof.
  intros Hp. assert (HpR : 0 < IZR peak) by (apply IZR_lt; exact Hp).
  exists (fun s => Ztrunc (IZR s / IZR peak * full_scale)).
  split; [apply rescale_sample_monotone, HpR|].
  split; [apply rescale_sample_zero|]. split; [|split; [|reflexivity]].
  - replace (IZR peak / IZR peak * full_scale) with (IZR 32767)
      by (unfold full_scale; field; lra).
    apply Ztrunc_IZR.
  - rewrite opp_IZR.
    replace (- IZR peak / IZR peak * full_scale) with (IZR (-32767))
      by (unfold full_scale; field; lra).
    apply Ztrunc_IZR.
Qed.

Lemma peak_abs_unique (l : list R) (m : R) :
  (forall x, In x l -> Rabs x <= m) ->
  (exists x, In x l /\ Rabs x = m) ->
  peak_abs l = m.
Proof.
  intros Hub [x [Hin Hx]].
  assert (Hne : l <> []) by (intros H0; rewrite H0 in Hin; exact Hin).
  destruct (peak_abs_attained l Hne) as [y [Hy Hpy]].
  pose proof (peak_abs_ge l x Hin). pose proof (Hub y Hy). lra.
Qed.

Lemma peak_abs_halved (l : list R) :
  peak_abs (map (fun x => x / 2) l) = peak_abs l / 2.
Proof.
  destruct l as [|y l]; [cbn; lra|].
  assert (Hhalf : forall x, Rabs (x / 2) = Rabs x / 2).
  { intros x. unfold Rdiv. rewrite Rabs_mult, (Rabs_pos_eq (/ 2)) by lra.
    reflexivity. }
  apply peak_abs_unique.
  - intros x Hin. apply in_map_iff in Hin. destruct Hin as [z [<- Hz]].
    rewrite Hhalf. pose proof (peak_abs_ge (y :: l) z Hz). lra.
  - destruct (peak_abs_attained (y :: l)) as [z [Hz Hpz]]; [discriminate|].
    exists (z / 2). split.
    + apply (in_map (fun x => x / 2)), Hz.
    + rewrite Hhalf, Hpz. reflexivity.
Qed.

Lemma float_samples_peak (seg : AudioSegment) :
  peak_abs (float_samples seg) = IZR (max_amplitude seg).
Proof.
  unfold float_samples.
  destruct (raw_samples seg) as [|s0 rest] eqn:Hraw.
  { unfold max_amplitude. rewrite Hraw. reflexivity. }
  rewrite <- Hraw. apply peak_abs_unique.
  - intros x Hin. apply in_map_iff in Hin. destruct Hin as [s [<- Hs]].
    rewrite <- abs_IZR. apply IZR_le, max_amplitude_ge, Hs.
  - destruct (max_amplitude_attained seg) as [H0|[s [Hs Ha]]].
    + exists (IZR s0). split.
      * apply in_map. rewrite Hraw. left. reflexivity.
      * rewrite <- abs_IZR. f_equal.
        assert (Hin : In s0 (raw_samples seg))
          by (rewrite Hraw; left; reflexivity).
        pose proof (max_amplitude_ge seg s0 Hin). lia.
    + exists (IZR s). split; [apply in_map, Hs|].
      rewrite <- abs_IZR, Ha. reflexivity.
Qed.

Lemma mapi_from_index_free {A B} (k : nat) (g : A -> B) (a : list A) :
  mapi_from k (fun _ => g) a = map g a.
Proof.
  revert k; induction a as [|x a IH]; intros k; cbn; [reflexivity|].
  rewrite IH. reflexivity.
Qed.



(** ** Surround without pan *)

(** At depth 0 both gains are 1/2 at every frame, and the halving cancels
    against the peak. *)
Lemma surround_depth_zero_run (self : LofiMaker) :
  well_formed (audio self) -> channels (audio self) = 2%Z ->
  surround_cycle_duration self <> 0 -> surround_depth self = 0 ->
  non_silent (audio self) ->
  let peak := max_amplitude (audio self) in
  let data := map (fun s => Ztrunc (IZR s / IZR peak * full_scale))
                (raw_samples (audio self)) in
  surround_float self =
    Ok (map (fun s => Fin (IZR s / IZR peak * 32767))
          (raw_samples (audio self))) /\
  surround_audio self =
    (Ok (spawn (audio self) data), set_audio self (spawn (audio self) data)) /\
  max_amplitude (spawn (audio self) data) = 32767%Z.
Proof.
  intros Hwf Hch Hc Hd Hns peak data.
  destruct (wf_stereo_even _ Hwf Hch) as [n Hn].
  pose proof (max_amplitude_pos _ Hns) as Hmax. apply IZR_lt in Hmax.
  fold peak in Hmax.
  set (floats := float_samples (audio self)).
  assert (Hpanned : surround_panned self
                    = Ok (map (fun row => (fst row / 2, snd row / 2))
                            (frames_of floats))).
  { rewrite (surround_panned_spec self Hwf Hch Hc). f_equal.
    unfold panned_spec. rewrite <- mapi_from_index_free with (k := 0%nat).
    apply mapi_from_ext. intros i row _.
    unfold pan_frame, pan_value, left_gain, right_gain. rewrite Hd.
    f_equal; field. }
  assert (Hflat : Np.flatten2 (map (fun row => (fst row / 2, snd row / 2))
                                 (frames_of floats))
                  = map (fun x => x / 2) floats).
  { rewrite (flatten2_map (fun x => x / 2)).
    rewrite (flatten2_frames n); [reflexivity|].
    unfold floats. rewrite float_samples_length. exact Hn. }
  assert (Hpeak : peak_abs (map (fun x => x / 2) floats) = IZR peak / 2).
  { rewrite peak_abs_halved. unfold floats. rewrite float_samples_peak.
    reflexivity. }
  assert (Hdata : map (fun x => Ztrunc (x / (IZR peak / 2) * full_scale))
                    (map (fun x => x / 2) floats) = data).
  { unfold floats, float_samples, data. rewrite !map_map.
    apply map_ext. intros s. f_equal. field. lra. }
  assert (Hrun : surround_data self = Ok data).
  { rewrite (surround_data_of_panned self _ Hpanned)
      by (rewrite Hflat, Hpeak; lra).
    rewrite Hflat, Hpeak, Hdata. reflexivity. }
  split; [|split].
  - rewrite (surround_float_of_panned self _ Hpanned).
    + rewrite Hflat, Hpeak. unfold floats, float_samples.
      rewrite !map_map. f_equal. apply map_ext. intros s.
      rewrite rescale_nonzero by lra. unfold full_scale. f_equal.
      field. lra.
    + intros H0. rewrite H0 in Hflat. cbn in Hflat.
      symmetry in Hflat. apply map_eq_nil in Hflat.
      destruct Hns as [s [Hin _]]. unfold floats, float_samples in Hflat.
      apply map_eq_nil in Hflat. rewrite Hflat in Hin. exact Hin.
  - rewrite surround_audio_run, Hrun by exact Hch. reflexivity.
  - assert (Hpos : 0 < peak_abs (map (fun x => x / 2) floats))
      by (rewrite Hpeak; lra).
    destruct (rescaled_data_peak _ Hpos) as [Hall Hatt].
    cbn zeta in Hall, Hatt. rewrite Hpeak, Hdata in Hall, Hatt.
    apply max_amplitude_exact; [exact Hall|exact Hatt].
Qed.

(** X16.  Depth 0 ("no pan") is not the identity.  On a well-formed
    stereo buffer that is not silent, with a cycle other than 0, Surround
    returns a copy rescaled to full scale: every stored sample is the
    image of the input sample under one order-keeping map that leaves 0
    where it is and takes [peak] and [- peak] to 32767 and -32767, [peak]
    being the largest absolute sample of the input, so the output peak is
    32767 whatever the input peak was; in exact arithmetic the float
    array before the cast holds [s / peak * 32767] for each input sample
    [s]. *)
Theorem surround_depth_zero_rescales (self : LofiMaker) :
  well_formed (audio self) -> channels (audio self) = 2%Z ->
  surround_cycle_duration self <> 0 -> surround_depth self = 0 ->
  non_silent (audio self) ->
  let raw := raw_samples (audio self) in
  let peak := max_amplitude (audio self) in
  exists seg,
    surround_audio self = (Ok seg, set_audio self seg) /\
    frame_rate seg = frame_rate (audio self) /\
    channels seg = channels (audio self) /\
    full_scale_copy peak raw (raw_samples seg) /\
    max_amplitude seg = 32767%Z /\
    surround_float self
      = Ok (map (fun s => Fin (IZR s / IZR peak * 32767)) raw).
Proof.
  intros Hwf Hch Hc Hd Hns raw peak.
  destruct (surround_depth_zero_run self Hwf Hch Hc Hd Hns)
    as (Hfloat & Hrun & Hmax).
  eexists. split; [exact Hrun|].
  cbn [frame_rate channels raw_samples spawn].
  split; [reflexivity|]. split; [reflexivity|].
  split; [apply rescale_full_scale_copy, max_amplitude_pos, Hns|].
  split; [exact Hmax|exact Hfloat].
Qed.

Lemma surround_depth_zero_rescales_witness :
  exists seg,
    surround_audio (no_pan_maker loud_stereo)
      = (Ok seg, set_audio (no_pan_maker loud_stereo) seg) /\
    full_scale_copy 1000 [1000; -500]%Z (raw_samples seg) /\
    max_amplitude seg = 32767%Z.
Proof.
  destruct (surround_depth_zero_rescales (no_pan_maker loud_stereo))
    as [seg (Hrun & _ & _ & Hcopy & Hmax & _)].
  - apply wf_loud_stereo.
  - reflexivity.
  - cbn. lra.
  - reflexivity.
  - exists 1000%Z. split; [left; reflexivity|discriminate].
  - exists seg. split; [exact Hrun|]. split; [exact Hcopy|exact Hmax].
Defined.

(** ** Reverb without audible echo *)

Section EchoBeyond.
Context {T : Type} `{Row T}.
Hypothesis radd_zero_r : forall x : T, radd x rzero = x.
Hypothesis rscale_zero : forall c : R, rscale c rzero = rzero.


End EchoBeyond.




(** * The claims on parameters, Reverb and the pans *)

(** ** Parameters out of their domain *)




(** ** The echoes place by place *)

Section EchoPointwise.
Context {T : Type} `{Row T}.
Hypothesis radd_zero_r : forall x : T, radd x rzero = x.
Hypothesis rscale_zero : forall c : R, rscale c rzero = rzero.

Lemma echo_spec_nth (samples : list T) (d : nat) (c : R) (r n : nat) :
  (n < length samples)%nat ->
  nth n (echo_spec samples d c r) rzero =
  fold_left
    (fun acc k =>
       radd acc (if (n <? d * k)%nat then rzero
                 else rscale (c ^ k) (nth (n - d * k) samples rzero)))
    (seq 1 r) (nth n samples rzero).
Proof.
  intros Hn. unfold echo_spec.
  assert (Hgen : forall ks output,
    length output = length samples ->
    nth n (fold_left
             (fun out k =>
                Np.map2 radd out (delay_line samples (d * k) (c ^ k)))
             ks output) rzero =
    fold_left
      (fun acc k =>
         radd acc (if (n <? d * k)%nat then rzero
                   else rscale (c ^ k) (nth (n - d * k) samples rzero)))
      ks (nth n output rzero)).
  { intros ks. induction ks as [|k ks IH]; intros output Hl; cbn.
    - reflexivity.
    - rewrite IH.
      + rewrite map2_nth.
        * rewrite (delay_line_nth rscale_zero) by exact Hn. reflexivity.
        * rewrite (delay_line_length). exact Hl.
        * rewrite Hl. exact Hn.
      + rewrite map2_length; [exact Hl|].
        rewrite delay_line_length. exact Hl. }
  apply Hgen. reflexivity.
Qed.

End EchoPointwise.

Lemma fold_left_pointwise {A B} (f g : A -> B -> A) (l : list B) (a : A) :
  (forall acc b, In b l -> f acc b = g acc b) ->
  fold_left f l a = fold_left g l a.
Proof.
  revert a; induction l as [|b l IH]; intros a Hfg; cbn; [reflexivity|].
  rewrite (Hfg a b (or_introl eq_refl)). apply IH.
  intros acc b' Hb'. apply Hfg. right. exact Hb'.
Qed.

Lemma fst_fold_radd {I} (term : I -> R * R) (ks : list I) (a : R * R) :
  fst (fold_left (fun acc k => radd acc (term k)) ks a) =
  fold_left (fun acc k => acc + fst (term k)) ks (fst a).
Proof.
  revert a; induction ks as [|k ks IH]; intros a; cbn [fold_left];
    [reflexivity|].
  rewrite IH. reflexivity.
Qed.

Lemma snd_fold_radd {I} (term : I -> R * R) (ks : list I) (a : R * R) :
  snd (fold_left (fun acc k => radd acc (term k)) ks a) =
  fold_left (fun acc k => acc + snd (term k)) ks (snd a).
Proof.
  revert a; induction ks as [|k ks IH]; intros a; cbn [fold_left];
    [reflexivity|].
  rewrite IH. reflexivity.
Qed.

Lemma float_samples_nth (seg : AudioSegment) (n : nat) :
  nth n (float_samples seg) 0 = IZR (nth n (raw_samples seg) 0%Z).
Proof. unfold float_samples. change 0 with (IZR 0). apply map_nth. Qed.

(** The accumulated array of the specification at place [n]. *)
Lemma reverb_echo_at (self : LofiMaker) (n : nat) :
  well_formed (audio self) ->
  (n < length (raw_samples (audio self)))%nat ->
  nth n (reverb_echo_spec self) 0 =
  echo_at (fun m => IZR (nth m (raw_samples (audio self)) 0%Z))
    (if (channels (audio self) =? 2)%Z then 2 else 1)
    (Z.to_nat (delay_samples self)) (reverb_decay self)
    (Z.to_nat (reverb_repeats self)) n.
Proof.
  intros Hwf Hn. unfold reverb_echo_spec, echo_at.
  set (d := Z.to_nat (delay_samples self)).
  set (c := reverb_decay self).
  destruct (channels (audio self) =? 2)%Z eqn:Hch.
  - apply Z.eqb_eq in Hch.
    destruct (wf_stereo_even _ Hwf Hch) as [m Hm].
    pose proof (float_samples_length (audio self)) as Hfl.
    assert (Hframes : length (frames_of (float_samples (audio self))) = m)
      by (apply frames_of_length; lia).
    assert (Hrow : forall k j, (k < m)%nat -> (d * j <= k)%nat ->
              nth (k - d * j) (frames_of (float_samples (audio self))) (0, 0)
              = (IZR (nth (2 * k - 2 * d * j) (raw_samples (audio self)) 0%Z),
                 IZR (nth (2 * k + 1 - 2 * d * j)
                        (raw_samples (audio self)) 0%Z))).
    { intros k j Hk Hj. rewrite frames_of_nth by lia.
      rewrite !float_samples_nth.
      replace (2 * (k - d * j))%nat with (2 * k - 2 * d * j)%nat by lia.
      replace (2 * k - 2 * d * j + 1)%nat with (2 * k + 1 - 2 * d * j)%nat
        by lia.
      reflexivity. }
    assert (Hrow0 : forall k, (k < m)%nat ->
              nth k (frames_of (float_samples (audio self))) (0, 0)
              = (IZR (nth (2 * k) (raw_samples (audio self)) 0%Z),
                 IZR (nth (2 * k + 1) (raw_samples (audio self)) 0%Z))).
    { intros k Hk. rewrite frames_of_nth by lia.
      rewrite !float_samples_nth. reflexivity. }
    destruct (Nat.Even_or_Odd n) as [[k Hk]|[k Hk]]; subst n.
    + destruct (flatten2_nth
                  (echo_spec (frames_of (float_samples (audio self))) d c
                     (Z.to_nat (reverb_repeats self))) k 0) as [-> _].
      change (0, 0) with (rzero : R * R).
      rewrite (echo_spec_nth stereo_scale_zero) by lia.
      rewrite fst_fold_radd. change (rzero : R * R) with (0, 0).
      rewrite (Hrow0 k) by lia. cbn [fst].
      apply fold_left_pointwise. intros acc j _. f_equal.
      destruct (k <? d * j)%nat eqn:E.
      * apply Nat.ltb_lt in E.
        replace (2 * k <? 2 * d * j)%nat with true
          by (symmetry; apply Nat.ltb_lt; lia).
        reflexivity.
      * apply Nat.ltb_ge in E.
        replace (2 * k <? 2 * d * j)%nat with false
          by (symmetry; apply Nat.ltb_ge; lia).
        rewrite (Hrow k j) by lia. reflexivity.
    + destruct (flatten2_nth
                  (echo_spec (frames_of (float_samples (audio self))) d c
                     (Z.to_nat (reverb_repeats self))) k 0) as [_ ->].
      change (0, 0) with (rzero : R * R).
      rewrite (echo_spec_nth stereo_scale_zero) by lia.
      rewrite snd_fold_radd. change (rzero : R * R) with (0, 0).
      rewrite (Hrow0 k) by lia. cbn [snd].
      apply fold_left_pointwise. intros acc j _. f_equal.
      destruct (k <? d * j)%nat eqn:E.
      * apply Nat.ltb_lt in E.
        replace (2 * k + 1 <? 2 * d * j)%nat with true
          by (symmetry; apply Nat.ltb_lt; lia).
        reflexivity.
      * apply Nat.ltb_ge in E.
        replace (2 * k + 1 <? 2 * d * j)%nat with false
          by (symmetry; apply Nat.ltb_ge; lia).
        rewrite (Hrow k j) by lia. reflexivity.
  - rewrite (echo_spec_nth mono_scale_zero)
      by (rewrite float_samples_length; exact Hn).
    rewrite float_samples_nth.
    apply fold_left_pointwise. intros acc j _. cbn [radd rscale rzero Row_mono].
    rewrite !Nat.mul_1_l, float_samples_nth. reflexivity.
Qed.

Lemma echo_at_clean (x : nat -> R) (stride delay : nat) (decay : R)
    (repeats n : nat) :
  (n < stride * delay)%nat ->
  echo_at x stride delay decay repeats n = x n.
Proof.
  intros Hn. unfold echo_at.
  rewrite (fold_left_pointwise _ (fun acc _ => acc)).
  - generalize (x n). induction (seq 1 repeats) as [|i l IH]; intros a;
      [reflexivity|apply IH].
  - intros acc i Hi. apply in_seq in Hi.
    replace (n <? stride * delay * i)%nat with true
      by (symmetry; apply Nat.ltb_lt; nia).
    apply Rplus_0_r.
Qed.

(** ** Scenario B *)

Lemma Forall_repeat_same {A} (P : A -> Prop) (a : A) (n : nat) :
  P a -> Forall P (repeat a n).
Proof.
  intros Ha. apply Forall_forall. intros y Hy.
  apply repeat_spec in Hy. subst y. exact Ha.
Qed.

Lemma wf_scenario_B_buffer : well_formed scenario_B_buffer.
Proof.
  unfold well_formed, scenario_B_buffer.
  cbn [channels frame_rate raw_samples].
  split; [lia|]. split; [|split; [|lia]].
  - rewrite !length_app, repeat_length. cbn [length].
    replace (Z.of_nat (2 + (Z.to_nat 10582 + 2))) with 10586%Z by lia.
    reflexivity.
  - apply Forall_app. split; [repeat constructor|].
    apply Forall_app. split; [|repeat constructor].
    apply Forall_repeat_same. reflexivity.
Qed.

Lemma scenario_B_buffer_length :
  length (raw_samples scenario_B_buffer) = Z.to_nat 10586.
Proof.
  unfold scenario_B_buffer. cbn [raw_samples].
  rewrite !length_app, repeat_length. cbn [length]. lia.
Qed.

(** C3 (amended).  A stereo buffer that is not silent, Reverb with
    decay 0.3, delay 120 ms, 2 repeats at 44100 Hz.  The delay is 5292
    frames, and the first 5292 frames of the accumulated array are the
    original samples: no echo has arrived there.  Reverb returns a buffer
    with as many samples as the input, none above 32767 in absolute
    value, whose peak is 32767.  The first 5292 frames of the output are
    not the original samples but their rescaled copy: the stored samples
    there are the image of the original samples under one order-keeping
    map that leaves 0 where it is.  In exact arithmetic, the accumulated
    array at place [n] is the sample there plus 0.3 times the sample 5292
    frames earlier plus 0.09 times the sample 10584 frames earlier, where
    there are any, and the float array before the cast holds, in the
    first 5292 frames, the original sample divided by the peak of the
    accumulated array and multiplied by 32767. *)
Theorem reverb_scenario_B (self : LofiMaker) :
  well_formed (audio self) -> non_silent (audio self) ->
  channels (audio self) = 2%Z -> frame_rate (audio self) = 44100%Z ->
  reverb_decay self = 3 / 10 -> reverb_delay_ms self = 120%Z ->
  reverb_repeats self = 2%Z ->
  let raw := raw_samples (audio self) in
  let x := fun m => IZR (nth m raw 0%Z) in
  exists echoed floats seg g,
    delay_samples self = 5292%Z /\
    reverb_echoed self = Ok echoed /\
    0 < peak_abs echoed /\
    reverb_float self = Ok floats /\
    reverb_audio self = (Ok seg, set_audio self seg) /\
    length (raw_samples seg) = length raw /\
    Forall (fun z => (Z.abs z <= 32767)%Z) (raw_samples seg) /\
    max_amplitude seg = 32767%Z /\
    monotone g /\ g 0%Z = 0%Z /\
    forall n, (n < length raw)%nat ->
      nth n echoed 0 = echo_at x 2 (Z.to_nat 5292) (3 / 10) 2 n /\
      ((Z.of_nat n < 2 * 5292)%Z ->
       nth n echoed 0 = x n /\
       nth n floats NaN = Fin (x n / peak_abs echoed * 32767) /\
       nth n (raw_samples seg) 0%Z = g (nth n raw 0%Z)).
Proof.
  intros Hwf Hns Hch Hrate Hdecay Hms Hrep raw x.
  pose proof (delay_samples_44100_120 self Hrate Hms) as HD.
  assert (HD1 : (1 <= delay_samples self)%Z) by lia.
  pose proof (reverb_echoed_refines self Hwf HD1) as He.
  pose proof (reverb_echo_peak_pos self Hwf HD1 Hns) as Hpos.
  pose proof (reverb_echo_spec_length self Hwf) as Hlen. fold raw in Hlen.
  set (echoed := reverb_echo_spec self) in *.
  set (peak := peak_abs echoed) in *.
  set (g := fun s => Ztrunc (IZR s / peak * full_scale)).
  assert (Hat : forall n, (n < length raw)%nat ->
            nth n echoed 0 = echo_at x 2 (Z.to_nat 5292) (3 / 10) 2 n).
  { intros n Hn. unfold echoed. rewrite (reverb_echo_at self n Hwf Hn).
    rewrite (proj2 (Z.eqb_eq _ _) Hch), HD, Hdecay, Hrep. reflexivity. }
  exists echoed, (map (rescale peak) echoed),
         (spawn (audio self)
            (map (fun y => Ztrunc (y / peak * full_scale)) echoed)), g.
  split; [exact HD|]. split; [exact He|]. split; [exact Hpos|].
  split.
  { apply reverb_float_of_echoed; [exact He|].
    intros H0. unfold peak in Hpos. rewrite H0 in Hpos. cbn in Hpos. lra. }
  split.
  { rewrite reverb_audio_run, (reverb_data_of_echoed self _ He Hpos).
    reflexivity. }
  cbn [raw_samples spawn].
  destruct (rescaled_data_peak echoed Hpos) as [Hall Hatt].
  cbn zeta in Hall, Hatt. fold peak in Hall, Hatt.
  split; [rewrite length_map; exact Hlen|].
  split.
  { eapply Forall_impl; [|exact Hall].
    intros z Hz. cbn beta in Hz. lia. }
  split; [apply max_amplitude_exact; [exact Hall|exact Hatt]|].
  split; [apply rescale_sample_monotone, Hpos|].
  split; [apply rescale_sample_zero|].
  intros n Hn. split; [apply Hat, Hn|]. intros Hpre.
  assert (Hclean : nth n echoed 0 = x n).
  { rewrite (Hat n Hn). apply echo_at_clean. lia. }
  split; [exact Hclean|]. split.
  - rewrite (map_nth_in _ _ _ 0) by (rewrite Hlen; exact Hn).
    rewrite Hclean, rescale_nonzero by lra. reflexivity.
  - rewrite (map_nth_in _ _ _ 0) by (rewrite Hlen; exact Hn).
    rewrite Hclean. reflexivity.
Qed.

Lemma scenario_B_buffer_samples :
  nth 0 (raw_samples scenario_B_buffer) 0%Z = 597%Z /\
  nth 2 (raw_samples scenario_B_buffer) 0%Z = 0%Z /\
  nth (Z.to_nat 10584) (raw_samples scenario_B_buffer) 0%Z = 1000%Z.
Proof. repeat split; vm_compute; reflexivity. Qed.

Lemma reverb_scenario_B_witness :
  exists echoed seg g,
    reverb_echoed (default_maker scenario_B_buffer) = Ok echoed /\
    nth 0 echoed 0 = 597 /\
    nth (Z.to_nat 10584) echoed 0 = 1000 + 3 / 10 * 597 /\
    reverb_audio (default_maker scenario_B_buffer)
      = (Ok seg, set_audio (default_maker scenario_B_buffer) seg) /\
    length (raw_samples seg) = Z.to_nat 10586 /\
    max_amplitude seg = 32767%Z /\
    monotone g /\
    nth 0 (raw_samples seg) 0%Z = g 597%Z /\
    nth 2 (raw_samples seg) 0%Z = 0%Z.
Proof.
  destruct (reverb_scenario_B (default_maker scenario_B_buffer))
    as (echoed & floats & seg & g & _ & He & _ & _ & Hrun & Hlen & _ & Hmax
        & Hmono & Hg0 & Hn).
  - apply wf_scenario_B_buffer.
  - exists 597%Z. split; [left; reflexivity|discriminate].
  - reflexivity.
  - reflexivity.
  - reflexivity.
  - reflexivity.
  - reflexivity.
  - change (raw_samples (audio (default_maker scenario_B_buffer)))
      with (raw_samples scenario_B_buffer) in *.
    destruct scenario_B_buffer_samples as (H0 & H2 & Hlast).
    rewrite scenario_B_buffer_length in *.
    exists echoed, seg, g. split; [exact He|].
    assert (Hlt0 : (0 < Z.to_nat 10586)%nat) by lia.
    assert (Hlt2 : (2 < Z.to_nat 10586)%nat) by lia.
    assert (Hltl : (Z.to_nat 10584 < Z.to_nat 10586)%nat) by lia.
    destruct (Hn 0%nat Hlt0) as [_ Hpre0].
    destruct Hpre0 as (He0 & _ & Hs0); [cbn; lia|].
    destruct (Hn 2%nat Hlt2) as [_ Hpre2].
    destruct Hpre2 as (_ & _ & Hs2); [cbn; lia|].
    destruct (Hn (Z.to_nat 10584) Hltl) as [Hat _].
    rewrite H0 in He0, Hs0. rewrite H2 in Hs2.
    split; [exact He0|]. split.
    + rewrite Hat. unfold echo_at. change (seq 1 2) with [1; 2]%nat.
      cbn [fold_left].
      replace (Z.to_nat 10584 <? 2 * Z.to_nat 5292 * 1)%nat with false
        by (symmetry; apply Nat.ltb_ge; lia).
      replace (Z.to_nat 10584 <? 2 * Z.to_nat 5292 * 2)%nat with true
        by (symmetry; apply Nat.ltb_lt; lia).
      replace (Z.to_nat 10584 - 2 * Z.to_nat 5292 * 1)%nat with 0%nat
        by lia.
      rewrite Hlast, H0. lra.
    + split; [exact Hrun|]. split; [exact Hlen|]. split; [exact Hmax|].
      split; [exact Hmono|]. split; [exact Hs0|].
      rewrite Hs2. exact Hg0.
Defined.

(** ** The echo construction *)





(** ** Dimension against Surround *)

Lemma mapM_indexed {A B} (f : Z -> A -> result B) (g : nat -> A -> B)
    (a : list A) (k : nat) :
  (forall i x, f (Z.of_nat i) x = Ok (g i x)) ->
  mapM (fun ir => f (fst ir) (snd ir))
       (combine (map Z.of_nat (seq k (length a))) a)
  = Ok (mapi_from k g a).
Proof.
  intros Hf. revert k. induction a as [|x a IH]; intros k; cbn;
    [reflexivity|].
  rewrite Hf. cbn [rbind]. rewrite IH. reflexivity.
Qed.

(** The products of the N-D loop are the frames of Surround's loop at
    depth 1 on the cycle [nd_cycle_duration]. *)
Lemma nd_products_spec (self : LofiMaker) :
  well_formed (audio self) -> channels (audio self) = 2%Z ->
  nd_cycle_duration self <> 0 ->
  nd_products self =
  Ok (panned_spec (frame_rate (audio self)) (nd_cycle_duration self) 1
        (frames_of (float_samples (audio self)))).
Proof.
  intros Hwf Hch Hc.
  destruct (wf_stereo_even _ Hwf Hch) as [n Hn].
  assert (Hr : frame_rate (audio self) <> 0%Z)
    by (destruct Hwf as (_ & _ & _ & Hpos); lia).
  unfold nd_products. rewrite (reshape2_frames n) by exact Hn.
  cbn [rbind]. rewrite range_all.
  rewrite (mapM_indexed (nd_product self)
             (fun i row =>
                pan_frame (pan_value (frame_rate (audio self))
                             (nd_cycle_duration self) 1 i)
                  (IZR (fst row), IZR (snd row)))).
  - f_equal. unfold panned_spec, float_samples.
    rewrite frames_of_map, mapi_from_map. reflexivity.
  - intros i row. unfold nd_product.
    rewrite pan_phase_ok by assumption. cbn [rbind].
    unfold pan_frame, pan_value. cbn [fst snd].
    rewrite Rmult_1_r. reflexivity.
Qed.

(** In the model the frames Dimension stores are those products, each
    truncated toward zero. *)
Lemma nd_data_of_products (self : LofiMaker) :
  well_formed (audio self) -> channels (audio self) = 2%Z ->
  nd_cycle_duration self <> 0 ->
  exists products,
    nd_products self = Ok products /\
    nd_data self = Ok (Np.flatten2 (map trunc_frame products)).
Proof.
  intros Hwf Hch Hc. eexists. split.
  - apply nd_products_spec; assumption.
  - apply nd_data_spec; assumption.
Qed.




